(** * Signaling relay: connection registry, room directory and message router

    A shallow embedding of [src/server/server.js].

    - A WebSocket connection is an opaque handle ([conn]); two handles are the
      same connection exactly when they are equal (JavaScript [===] on
      objects).
    - [clients] (a JavaScript [Map]) and every room's member [Set] keep their
      insertion order, which the code observes when it iterates them; both
      are kept as lists in iteration order.  [Map.set] on a key that is
      present overwrites the value in place, [Set.add] of a present element
      does nothing.
    - The message fields [type], [username], [roomId] and [targetId] are
      strings, as in the message schema; the [signal] payload is carried as
      its JSON text.  Any value of [type] other than the three the switch
      knows takes the default branch.
    - [client.readyState] belongs to the transport, not to the relay: every
      handler reads it from a snapshot [transport] passed to it.
    - [generateUserId()] draws on [Math.random]; the identifier it returned
      for a call is an input of the handler.
    - [client.send(...)] is recorded as a call, in order, in the [sent] trace
      of the handler's result; what the transport library then does with it
      is outside the repository.  Console output is not modelled.
    - Reading a property of [undefined] raises a [TypeError]; handlers are
      computations that may raise, inside a small state/trace/exception
      monad.  An exception raised under the message handler's [try] is
      caught there; one raised in the close handler escapes it. *)

From Stdlib Require Import List String Bool Arith Lia.
Import ListNotations.
Local Open Scope string_scope.
Local Open Scope list_scope.

(** ** Data *)

Definition conn := nat.

Inductive readyState := CONNECTING | OPEN | CLOSING | CLOSED.

Definition readyState_eqb (a b : readyState) : bool :=
  match a, b with
  | CONNECTING, CONNECTING | OPEN, OPEN | CLOSING, CLOSING | CLOSED, CLOSED => true
  | _, _ => false
  end.

Definition transport := conn -> readyState.

Definition payload := string.

(** The value [JSON.parse(message)] of an inbound frame. *)
Module Data.
Record t := mk {
  type : string;
  username : string;
  roomId : string;
  targetId : string;
  signal : payload
}.
End Data.

(** The registry entry [{ userId, username, roomId }] of a connection. *)
Module Info.
Record t := mk {
  userId : string;
  username : string;
  roomId : string
}.
End Info.

(** A roster entry [{ userId, username }]. *)
Record user := User { user_userId : string; user_username : string }.

(** The messages the relay writes, before [JSON.stringify]. *)
Inductive serverMsg :=
| RoomJoined (roomId userId : string) (users : list user)
| UserJoined (userId username : string)
| UserList (users : list user)
| UserLeft (userId username : string)
| SignalMsg (fromId : string) (signal : payload).

(** ** Insertion-ordered maps and sets *)

Section OrderedMap.
Context {K V : Type} (eqb : K -> K -> bool).

Fixpoint Map_get (k : K) (m : list (K * V)) : option V :=
  match m with
  | [] => None
  | (k', v) :: m' => if eqb k k' then Some v else Map_get k m'
  end.

Definition Map_has (k : K) (m : list (K * V)) : bool :=
  match Map_get k m with Some _ => true | None => false end.

Fixpoint Map_set (k : K) (v : V) (m : list (K * V)) : list (K * V) :=
  match m with
  | [] => [(k, v)]
  | (k', v') :: m' =>
      if eqb k k' then (k', v) :: m' else (k', v') :: Map_set k v m'
  end.

Definition Map_delete (k : K) (m : list (K * V)) : list (K * V) :=
  filter (fun e => negb (eqb k (fst e))) m.
End OrderedMap.

Definition Set_has (x : conn) (s : list conn) : bool := existsb (Nat.eqb x) s.

Definition Set_add (x : conn) (s : list conn) : list conn :=
  if Set_has x s then s else s ++ [x].

Definition Set_delete (x : conn) (s : list conn) : list conn :=
  filter (fun y => negb (Nat.eqb x y)) s.

(** ** The relay's state and the handler monad *)

Record world := World {
  clients : list (conn * Info.t);
  rooms : list (string * list conn)
}.

Definition init : world := World [] [].

Inductive exn := TypeError | SyntaxError.

Record result (A : Type) := Result {
  value : A + exn;
  after : world;
  sent : list (conn * serverMsg)
}.
Arguments Result {A} _ _ _.
Arguments value {A} _.
Arguments after {A} _.
Arguments sent {A} _.

Definition M (A : Type) := world -> result A.

Definition ret {A} (a : A) : M A := fun w => Result (inl a) w [].

Definition throw {A} (e : exn) : M A := fun w => Result (inr e) w [].

Definition bind {A B} (m : M A) (f : A -> M B) : M B :=
  fun w =>
    let r := m w in
    match value r with
    | inl a => let r' := f a (after r) in
               Result (value r') (after r') (sent r ++ sent r')
    | inr e => Result (inr e) (after r) (sent r)
    end.

Definition try_catch (m : M unit) (handler : exn -> M unit) : M unit :=
  fun w =>
    let r := m w in
    match value r with
    | inl _ => r
    | inr e => let r' := handler e (after r) in
               Result (value r') (after r') (sent r ++ sent r')
    end.

Notation "x <- m ;; k" := (bind m (fun x => k))
  (at level 61, m at next level, right associativity).
Notation "m ;; k" := (bind m (fun _ => k))
  (at level 61, right associativity).

Definition gets {A} (f : world -> A) : M A := fun w => Result (inl (f w)) w [].

Definition modify (f : world -> world) : M unit :=
  fun w => Result (inl tt) (f w) [].

(** [client.send(JSON.stringify(msg))] *)
Definition send (client : conn) (msg : serverMsg) : M unit :=
  fun w => Result (inl tt) w [(client, msg)].

Fixpoint forEach (l : list conn) (f : conn -> M unit) : M unit :=
  match l with
  | [] => ret tt
  | x :: l' => f x ;; forEach l' f
  end.

Fixpoint mapM {A B} (f : A -> M B) (l : list A) : M (list B) :=
  match l with
  | [] => ret []
  | x :: l' => y <- f x ;; ys <- mapM f l' ;; ret (y :: ys)
  end.

(** *** The two stores *)

Definition clients_get (ws : conn) : M (option Info.t) :=
  gets (fun w => Map_get Nat.eqb ws (clients w)).

Definition clients_set (ws : conn) (info : Info.t) : M unit :=
  modify (fun w => World (Map_set Nat.eqb ws info (clients w)) (rooms w)).

Definition clients_delete (ws : conn) : M unit :=
  modify (fun w => World (Map_delete Nat.eqb ws (clients w)) (rooms w)).

Definition clients_entries : M (list (conn * Info.t)) := gets clients.

Definition rooms_has (roomId : string) : M bool :=
  gets (fun w => Map_has String.eqb roomId (rooms w)).

Definition rooms_set (roomId : string) (s : list conn) : M unit :=
  modify (fun w => World (clients w) (Map_set String.eqb roomId s (rooms w))).

Definition rooms_delete (roomId : string) : M unit :=
  modify (fun w => World (clients w) (Map_delete String.eqb roomId (rooms w))).

(** [rooms.get(roomId)], used as a [Set]: a method call on it raises when the
    room is absent. *)
Definition rooms_get (roomId : string) : M (list conn) :=
  s <- gets (fun w => Map_get String.eqb roomId (rooms w)) ;;
  match s with
  | Some members => ret members
  | None => throw TypeError
  end.

(** [rooms.get(roomId).add(ws)]: the set object is shared with the map, so
    the map sees the new member. *)
Definition room_add (roomId : string) (ws : conn) : M unit :=
  members <- rooms_get roomId ;;
  rooms_set roomId (Set_add ws members).

(** [rooms.get(roomId).delete(ws)] *)
Definition room_delete (roomId : string) (ws : conn) : M unit :=
  members <- rooms_get roomId ;;
  rooms_set roomId (Set_delete ws members).

(** [client => { const info = clients.get(client);
                 return { userId: info.userId, username: info.username }; }] *)
Definition userOf (client : conn) : M user :=
  info <- clients_get client ;;
  match info with
  | Some i => ret (User (Info.userId i) (Info.username i))
  | None => throw TypeError
  end.

(** ** The handlers *)

Definition broadcastToRoom (rs : transport) (roomId : string) (message : serverMsg)
    (excludeWs : option conn) : M unit :=
  has <- rooms_has roomId ;;
  if negb has then ret tt
  else
    members <- rooms_get roomId ;;
    forEach members (fun client =>
      if negb (match excludeWs with Some ws => Nat.eqb client ws | None => false end)
         && readyState_eqb (rs client) OPEN
      then send client message
      else ret tt).

Definition updateUserList (rs : transport) (roomId : string) : M unit :=
  has <- rooms_has roomId ;;
  if negb has then ret tt
  else
    members <- rooms_get roomId ;;
    users <- mapM userOf members ;;
    broadcastToRoom rs roomId (UserList users) None.

(** [userId] is the value [generateUserId()] returned for this call. *)
Definition handleJoin (rs : transport) (userId : string) (ws : conn) (data : Data.t)
    : M unit :=
  let username := Data.username data in
  let roomId := Data.roomId data in
  clients_set ws (Info.mk userId username roomId) ;;
  has <- rooms_has roomId ;;
  (if negb has then rooms_set roomId [] else ret tt) ;;
  room_add roomId ws ;;
  members <- rooms_get roomId ;;
  existingUsers <-
    mapM userOf (filter (fun client => negb (Nat.eqb client ws)) members) ;;
  send ws (RoomJoined roomId userId existingUsers) ;;
  broadcastToRoom rs roomId (UserJoined userId username) (Some ws) ;;
  updateUserList rs roomId.

(** The [for ... of clients.entries()] loop with its [break]. *)
Fixpoint findTarget (targetId roomId : string) (entries : list (conn * Info.t))
    : option conn :=
  match entries with
  | [] => None
  | (client, info) :: rest =>
      if String.eqb (Info.userId info) targetId && String.eqb (Info.roomId info) roomId
      then Some client
      else findTarget targetId roomId rest
  end.

Definition handleSignal (ws : conn) (data : Data.t) : M unit :=
  sender <- clients_get ws ;;
  match sender with
  | None => ret tt
  | Some sender =>
      let targetId := Data.targetId data in
      let signal := Data.signal data in
      entries <- clients_entries ;;
      match findTarget targetId (Info.roomId sender) entries with
      | Some client => send client (SignalMsg (Info.userId sender) signal)
      | None => ret tt
      end
  end.

Definition handleLeave (rs : transport) (ws : conn) : M unit :=
  clientInfo <- clients_get ws ;;
  match clientInfo with
  | None => ret tt
  | Some clientInfo =>
      let userId := Info.userId clientInfo in
      let username := Info.username clientInfo in
      let roomId := Info.roomId clientInfo in
      has <- rooms_has roomId ;;
      (if has then
         room_delete roomId ws ;;
         members <- rooms_get roomId ;;
         if Nat.eqb (List.length members) 0 then rooms_delete roomId
         else
           broadcastToRoom rs roomId (UserLeft userId username) None ;;
           updateUserList rs roomId
       else ret tt) ;;
      clients_delete ws
  end.

(** ** The per-connection event handlers *)

(** [ws.on('message')]: [message] is what [JSON.parse] made of the frame,
    [None] when it raised. *)
Definition onMessage (rs : transport) (userId : string) (ws : conn)
    (message : option Data.t) : M unit :=
  try_catch
    (match message with
     | None => throw SyntaxError
     | Some data =>
         if String.eqb (Data.type data) "join" then handleJoin rs userId ws data
         else if String.eqb (Data.type data) "signal" then handleSignal ws data
         else if String.eqb (Data.type data) "leave" then handleLeave rs ws
         else ret tt
     end)
    (fun _ => ret tt).

(** [ws.on('close')] *)
Definition onClose (rs : transport) (ws : conn) : M unit := handleLeave rs ws.

(** [ws.on('error')] *)
Definition onError (ws : conn) : M unit := ret tt.

Inductive event :=
| Message (ws : conn) (message : option Data.t)
| Close (ws : conn)
| Error (ws : conn).

(** An event together with what the environment decides when it is handled:
    the transport states and the identifier [generateUserId] would return. *)
Record tick := Tick { tick_ready : transport; tick_random : string; tick_event : event }.

Definition step (k : tick) : M unit :=
  match tick_event k with
  | Message ws message => onMessage (tick_ready k) (tick_random k) ws message
  | Close ws => onClose (tick_ready k) ws
  | Error ws => onError ws
  end.

(** Events are handled one at a time; an exception that escapes a handler
    ends the process. *)
Fixpoint run (t : list tick) : M unit :=
  match t with
  | [] => ret tt
  | k :: t' => step k ;; run t'
  end.

(** ** Client messages *)

Definition join (username roomId : string) : Data.t :=
  Data.mk "join" username roomId "" "".

Definition signal (targetId : string) (s : payload) : Data.t :=
  Data.mk "signal" "" "" targetId s.

Definition leave : Data.t := Data.mk "leave" "" "" "" "".

Definition says (rs : transport) (uid : string) (ws : conn) (d : Data.t) : tick :=
  Tick rs uid (Message ws (Some d)).

Definition allOpen : transport := fun _ => OPEN.

Definition members (w : world) (roomId : string) : list conn :=
  match Map_get String.eqb roomId (rooms w) with
  | Some s => s
  | None => []
  end.

(** ** What a handler computes, without the monad *)

(** The roster of a list of connections; [None] when one of them has no
    registry entry (the callback raises). *)
Fixpoint roster (cl : list (conn * Info.t)) (l : list conn) : option (list user) :=
  match l with
  | [] => Some []
  | c :: l' =>
      match Map_get Nat.eqb c cl with
      | None => None
      | Some i =>
          match roster cl l' with
          | None => None
          | Some us => Some (User (Info.userId i) (Info.username i) :: us)
          end
      end
  end.

(** The sends of one broadcast over a member list. *)
Definition recipient (rs : transport) (excludeWs : option conn) (client : conn) : bool :=
  negb (match excludeWs with Some ws => Nat.eqb client ws | None => false end)
  && readyState_eqb (rs client) OPEN.

Definition deliver (rs : transport) (excludeWs : option conn) (message : serverMsg)
    (l : list conn) : list (conn * serverMsg) :=
  map (fun client => (client, message)) (filter (recipient rs excludeWs) l).

(** What one connection is sent, in order. *)
Definition inbox (c : conn) (out : list (conn * serverMsg)) : list serverMsg :=
  map snd (filter (fun e => Nat.eqb (fst e) c) out).

Definition matches (targetId roomId : string) (info : Info.t) : Prop :=
  Info.userId info = targetId /\ Info.roomId info = roomId.

Definition bound (w : world) (c : conn) : Prop :=
  exists i, Map_get Nat.eqb c (clients w) = Some i.

(** No room of the directory has an empty member set. *)
Definition no_empty_room (w : world) : Prop :=
  forall r s, Map_get String.eqb r (rooms w) = Some s -> s <> [].

(** ** Pure counterparts of the handlers' steps *)

Definition removeClient (ws : conn) (w : world) : world :=
  World (Map_delete Nat.eqb ws (clients w)) (rooms w).

Definition setRoom (r : string) (s : list conn) (w : world) : world :=
  World (clients w) (Map_set String.eqb r s (rooms w)).

Definition dropRoom (r : string) (w : world) : world :=
  World (clients w) (Map_delete String.eqb r (rooms w)).

(** The state a join leaves behind: the session is (re)bound and the
    connection is in the named room's member set. *)
Definition joined (userId : string) (ws : conn) (data : Data.t) (w : world) : world :=
  World
    (Map_set Nat.eqb ws
       (Info.mk userId (Data.username data) (Data.roomId data)) (clients w))
    (Map_set String.eqb (Data.roomId data)
       (Set_add ws (members w (Data.roomId data))) (rooms w)).

(** Whether an event is a [join] message on connection [c]. *)
Definition is_join_from (c : conn) (e : event) : bool :=
  match e with
  | Message ws (Some d) => Nat.eqb ws c && String.eqb (Data.type d) "join"
  | _ => false
  end.

(** An exception caught by the [try]/[catch] of the message handler. *)
Definition caught (r : result unit) : result unit :=
  Result (inl tt) (after r) (sent r).

(** ** Invariants *)

(** Every member of a room has a session that names the room, every session's
    connection is a member of the room it names, and no room is empty. *)
Definition wf (w : world) : Prop :=
  (forall r s c, Map_get String.eqb r (rooms w) = Some s -> In c s ->
     exists i, Map_get Nat.eqb c (clients w) = Some i /\ Info.roomId i = r) /\
  (forall c i, Map_get Nat.eqb c (clients w) = Some i ->
     In c (members w (Info.roomId i))) /\
  no_empty_room w.

(** A tick that respects the protocol: a [join] only comes from a connection
    without a session. *)
Definition conforming (k : tick) (w : world) : Prop :=
  forall ws d, tick_event k = Message ws (Some d) -> Data.type d = "join" ->
               Map_get Nat.eqb ws (clients w) = None.

Fixpoint conforming_run (t : list tick) (w : world) : Prop :=
  match t with
  | [] => True
  | k :: t' => conforming k w /\ conforming_run t' (after (step k w))
  end.

(** ** Example states *)

Definition alice : conn := 1.
Definition bob : conn := 2.
Definition carol : conn := 3.

(** alice and bob in the lobby, carol alone in the den. *)
Definition lobby2 : world :=
  Eval vm_compute in
    after (run [says allOpen "u1" alice (join "alice" "lobby");
                says allOpen "u2" bob (join "bob" "lobby");
                says allOpen "u3" carol (join "carol" "den")] init).

(** bob's transport has started closing; its close event has not fired. *)
Definition bobClosing : transport :=
  fun c => if Nat.eqb c bob then CLOSING else OPEN.

(** alice, bob and carol join the lobby; alice then joins the den on the same
    connection and leaves. *)
Definition aliceMoves : list tick :=
  [says allOpen "u1" alice (join "alice" "lobby");
   says allOpen "u2" bob (join "bob" "lobby");
   says allOpen "u3" carol (join "carol" "lobby");
   says allOpen "u9" alice (join "alice" "den");
   says allOpen "" alice leave].

(** The state after [aliceMoves]: alice has no session and is still in the
    lobby's member set. *)
Definition stale3 : world :=
  World [(bob, Info.mk "u2" "bob" "lobby"); (carol, Info.mk "u3" "carol" "lobby")]
        [("lobby", [alice; bob; carol])].

(** alice and bob were both handed the userId "dup" in the lobby. *)
Definition twins : world :=
  Eval vm_compute in
    after (run [says allOpen "dup" alice (join "alice" "lobby");
                says allOpen "dup" bob (join "bob" "lobby");
                says allOpen "u3" carol (join "carol" "lobby")] init).

(** ** Statements the code does not meet, as predicates *)

(** The claim that a join is ignored: no state change and no send. *)
Definition join_ignored (rs : transport) (uid : string) (ws : conn) (d : Data.t)
    (w : world) : Prop :=
  after (step (says rs uid ws d) w) = w /\ sent (step (says rs uid ws d) w) = [].

(** The claim that an event on [ws] runs the leave handler: it leaves the
    state and makes the sends that [handleLeave] does. *)
Definition runs_cleanup (rs : transport) (e : event) (ws : conn) (w : world) : Prop :=
  after (step (Tick rs "" e) w) = after (handleLeave rs ws w) /\
  sent (step (Tick rs "" e) w) = sent (handleLeave rs ws w).

(** The claim that the remaining members are told of a departure: each of
    them is sent [user-left] and then [user-list], and nothing else. *)
Definition departure_announced (rs : transport) (ws : conn) (w : world) : Prop :=
  forall info c,
    Map_get Nat.eqb ws (clients w) = Some info ->
    In c (Set_delete ws (members w (Info.roomId info))) ->
    exists users,
      inbox c (sent (step (Tick rs "" (Close ws)) w))
      = [UserLeft (Info.userId info) (Info.username info); UserList users].

(** The claim that a join is answered: the sender is sent [room-joined] with
    the roomId of the message and the generated userId, and every member
    already in the room is sent [user-joined]. *)
Definition join_answered (rs : transport) (uid : string) (ws : conn) (d : Data.t)
    (w : world) : Prop :=
  (exists users,
      In (ws, RoomJoined (Data.roomId d) uid users) (sent (step (says rs uid ws d) w)))
  /\
  (forall c, In c (members w (Data.roomId d)) -> c <> ws ->
      In (c, UserJoined uid (Data.username d)) (sent (step (says rs uid ws d) w))).

(** ** The rest of the server file *)

(** One entry of [os.networkInterfaces()[name]]. *)
Module Iface.
Record t := mk {
  family : string;
  internal : bool;
  address : string
}.
End Iface.

(** The inner loop of [getLocalIpAddress]: the address at which the function
    returns while scanning one interface, if it does. *)
Fixpoint scanInterface (ifaces : list Iface.t) : option string :=
  match ifaces with
  | [] => None
  | iface :: rest =>
      if String.eqb (Iface.family iface) "IPv4" && negb (Iface.internal iface)
      then Some (Iface.address iface)
      else scanInterface rest
  end.

(** [interfaces] is [os.networkInterfaces()], its names in the order of
    [Object.keys]. *)
Fixpoint getLocalIpAddress (interfaces : list (string * list Iface.t)) : string :=
  match interfaces with
  | [] => "localhost"
  | (name, ifaces) :: rest =>
      match scanInterface ifaces with
      | Some a => a
      | None => getLocalIpAddress rest
      end
  end.

(** An entry the function accepts. *)
Definition external (iface : Iface.t) : Prop :=
  Iface.family iface = "IPv4" /\ Iface.internal iface = false.

(** [generateUserId]: [random36] is the string [Math.random().toString(36)];
    the function returns its [substr(2, 9)]. *)
Definition generateUserId (random36 : string) : string :=
  String.substring 2 9 random36.

(** ** Which connection and which room an event is about *)

Definition event_conn (e : event) : conn :=
  match e with
  | Message ws _ => ws
  | Close ws => ws
  | Error ws => ws
  end.

(** The room whose member set the handler of an event may write: the room a
    [join] names, the room of the session of a connection that leaves or
    closes. *)
Definition touched (e : event) (w : world) : option string :=
  let own ws := option_map Info.roomId (Map_get Nat.eqb ws (clients w)) in
  match e with
  | Message ws (Some d) =>
      if String.eqb (Data.type d) "join" then Some (Data.roomId d)
      else if String.eqb (Data.type d) "signal" then None
      else if String.eqb (Data.type d) "leave" then own ws
      else None
  | Message ws None => None
  | Close ws => own ws
  | Error ws => None
  end.

(** Uniqueness of keys and of set elements, as [Map] and [Set] have it. *)
Definition distinct (w : world) : Prop :=
  NoDup (map fst (clients w)) /\
  NoDup (map fst (rooms w)) /\
  (forall r s, Map_get String.eqb r (rooms w) = Some s -> NoDup s).

(** ** A sequence of joins into one room *)

(** A joiner: its connection, the userId generated for it, its username. *)
Record joiner := Joiner {
  joiner_conn : conn;
  joiner_userId : string;
  joiner_username : string
}.

Definition joinTick (rs : transport) (r : string) (j : joiner) : tick :=
  says rs (joiner_userId j) (joiner_conn j) (join (joiner_username j) r).

Definition joinerEntry (r : string) (j : joiner) : conn * Info.t :=
  (joiner_conn j, Info.mk (joiner_userId j) (joiner_username j) r).

Definition joinerUser (j : joiner) : user :=
  User (joiner_userId j) (joiner_username j).

(** The state in which exactly the joiners [js] have joined room [r], in this
    order, and nothing else has happened. *)
Definition roomOf (r : string) (js : list joiner) : world :=
  World (map (joinerEntry r) js)
        (match js with
         | [] => []
         | _ :: _ => [(r, map joiner_conn js)]
         end).

(** ** Lemmas on ordered maps and sets *)

Section OrderedMapFacts.
Context {K V : Type} (eqb : K -> K -> bool).
Hypothesis eqb_eq : forall a b, eqb a b = true <-> a = b.

Lemma eqb_refl' : forall a, eqb a a = true.
Proof. intro a. apply eqb_eq. reflexivity. Qed.

Lemma eqb_neq' : forall a b, a <> b -> eqb a b = false.
Proof.
  intros a b H. destruct (eqb a b) eqn:E; [|reflexivity].
  apply eqb_eq in E. contradiction.
Qed.

Lemma Map_get_set_same (k : K) (v : V) (m : list (K * V)) :
  Map_get eqb k (Map_set eqb k v m) = Some v.
Proof.
  induction m as [|[k' v'] m IH]; simpl.
  - rewrite eqb_refl'. reflexivity.
  - destruct (eqb k k') eqn:E; simpl; rewrite E; [reflexivity | exact IH].
Qed.

Lemma Map_get_set_other (k k0 : K) (v : V) (m : list (K * V)) :
  k0 <> k -> Map_get eqb k0 (Map_set eqb k v m) = Map_get eqb k0 m.
Proof.
  intro H. induction m as [|[k' v'] m IH]; simpl.
  - rewrite (eqb_neq' _ _ H). reflexivity.
  - destruct (eqb k k') eqn:E; simpl.
    + apply eqb_eq in E. subst k'. rewrite (eqb_neq' _ _ H). reflexivity.
    + rewrite IH. reflexivity.
Qed.

Lemma Map_set_set (k : K) (v v' : V) (m : list (K * V)) :
  Map_set eqb k v (Map_set eqb k v' m) = Map_set eqb k v m.
Proof.
  induction m as [|[k' v0] m IH]; simpl.
  - rewrite eqb_refl'. reflexivity.
  - destruct (eqb k k') eqn:E; simpl; rewrite E; [reflexivity | now rewrite IH].
Qed.

Lemma Map_get_delete_same (k : K) (m : list (K * V)) :
  Map_get eqb k (Map_delete eqb k m) = None.
Proof.
  induction m as [|[k' v'] m IH]; simpl; [reflexivity|].
  destruct (eqb k k') eqn:E; simpl; [exact IH | rewrite E; exact IH].
Qed.

Lemma Map_get_delete_other (k k0 : K) (m : list (K * V)) :
  k0 <> k -> Map_get eqb k0 (Map_delete eqb k m) = Map_get eqb k0 m.
Proof.
  intro H. induction m as [|[k' v'] m IH]; simpl; [reflexivity|].
  destruct (eqb k k') eqn:E; simpl.
  - apply eqb_eq in E. subst k'. rewrite (eqb_neq' _ _ H). exact IH.
  - rewrite IH. reflexivity.
Qed.


Lemma Map_get_In (k : K) (v : V) (m : list (K * V)) :
  Map_get eqb k m = Some v -> In (k, v) m.
Proof.
  induction m as [|[k' v'] m IH]; simpl; [discriminate|].
  destruct (eqb k k') eqn:E.
  - apply eqb_eq in E. intro H. inversion H. subst. now left.
  - intro H. right. exact (IH H).
Qed.
End OrderedMapFacts.

Lemma Set_has_In (x : conn) (s : list conn) : Set_has x s = true <-> In x s.
Proof.
  unfold Set_has. rewrite existsb_exists. split.
  - intros [y [Hy E]]. apply Nat.eqb_eq in E. now subst.
  - intro H. exists x. split; [exact H | apply Nat.eqb_refl].
Qed.

Lemma Set_add_In (x y : conn) (s : list conn) :
  In y (Set_add x s) <-> y = x \/ In y s.
Proof.
  unfold Set_add. destruct (Set_has x s) eqn:E.
  - apply Set_has_In in E. split; [now right | intros [->|H]; assumption].
  - rewrite in_app_iff. simpl. split.
    + intros [H|[H|[]]]; [now right | now left].
    + intros [H|H]; [right; now left | now left].
Qed.

Lemma Set_add_nonempty (x : conn) (s : list conn) : Set_add x s <> [].
Proof.
  intro H. assert (In x (Set_add x s)) by (apply Set_add_In; now left).
  rewrite H in H0. exact H0.
Qed.

Lemma Set_delete_In (x y : conn) (s : list conn) :
  In y (Set_delete x s) <-> In y s /\ y <> x.
Proof.
  unfold Set_delete. rewrite filter_In. split; intros [H1 H2]; split; try assumption.
  - intro E. subst. rewrite Nat.eqb_refl in H2. discriminate.
  - destruct (Nat.eqb x y) eqn:E; [|reflexivity].
    apply Nat.eqb_eq in E. congruence.
Qed.

Lemma Set_delete_idem (x : conn) (s : list conn) :
  Set_delete x (Set_delete x s) = Set_delete x s.
Proof.
  unfold Set_delete. induction s as [|y s IH]; simpl; [reflexivity|].
  destruct (Nat.eqb x y) eqn:E; simpl; [exact IH | rewrite E, IH; reflexivity].
Qed.

Lemma length_zero_nil {A} (l : list A) : Nat.eqb (List.length l) 0 = true <-> l = [].
Proof. destruct l; simpl; split; intro H; congruence. Qed.

(** ** Lemmas on the monad *)

Lemma result_eta {A} (r : result A) : Result (value r) (after r) (sent r) = r.
Proof. destruct r. reflexivity. Qed.

Lemma bind_gets {A B} (g : world -> A) (f : A -> M B) (w : world) :
  (x <- gets g ;; f x) w = f (g w) w.
Proof. unfold bind, gets. simpl. apply result_eta. Qed.

Lemma bind_modify {B} (g : world -> world) (k : M B) (w : world) :
  (modify g ;; k) w = k (g w).
Proof. unfold bind, modify. simpl. apply result_eta. Qed.

Lemma bind_ret {A B} (a : A) (f : A -> M B) (w : world) :
  (x <- ret a ;; f x) w = f a w.
Proof. unfold bind, ret. simpl. apply result_eta. Qed.

Lemma bind_throw {A B} (e : exn) (f : A -> M B) (w : world) :
  (x <- throw e ;; f x) w = Result (inr e) w [].
Proof. reflexivity. Qed.

Lemma bind_send {B} (c : conn) (m : serverMsg) (k : M B) (w : world) :
  (send c m ;; k) w = Result (value (k w)) (after (k w)) ((c, m) :: sent (k w)).
Proof. reflexivity. Qed.

Lemma bind_assoc {A B C} (m : M A) (f : A -> M B) (g : B -> M C) (w : world) :
  (y <- (x <- m ;; f x) ;; g y) w = (x <- m ;; y <- f x ;; g y) w.
Proof.
  unfold bind. destruct (m w) as [[a|e] w1 o1]; simpl; [|reflexivity].
  destruct (f a w1) as [[b|e] w2 o2]; simpl; [|reflexivity].
  rewrite app_assoc. reflexivity.
Qed.

Lemma bind_quiet {A B} (m : M A) (f : A -> M B) (w w' : world) (a : A) :
  m w = Result (inl a) w' [] -> (x <- m ;; f x) w = f a w'.
Proof. intro H. unfold bind. rewrite H. simpl. apply result_eta. Qed.

Lemma bind_pure {A B} (m : M A) (f : A -> M B) (w : world) (a : A) :
  m w = Result (inl a) w [] -> (x <- m ;; f x) w = f a w.
Proof. apply bind_quiet. Qed.

Lemma rooms_get_some (r : string) (s : list conn) (w : world) :
  Map_get String.eqb r (rooms w) = Some s -> rooms_get r w = Result (inl s) w [].
Proof. intro H. unfold rooms_get. rewrite bind_gets, H. reflexivity. Qed.

Lemma userOf_eq (c : conn) (w : world) :
  userOf c w =
  match Map_get Nat.eqb c (clients w) with
  | Some i => Result (inl (User (Info.userId i) (Info.username i))) w []
  | None => Result (inr TypeError) w []
  end.
Proof.
  unfold userOf, clients_get. rewrite bind_gets.
  destruct (Map_get Nat.eqb c (clients w)); reflexivity.
Qed.

Lemma mapM_userOf (l : list conn) (w : world) :
  mapM userOf l w =
  match roster (clients w) l with
  | Some us => Result (inl us) w []
  | None => Result (inr TypeError) w []
  end.
Proof.
  induction l as [|c l IH]; simpl; [reflexivity|].
  unfold bind. rewrite userOf_eq.
  destruct (Map_get Nat.eqb c (clients w)) as [i|]; simpl; [|reflexivity].
  rewrite IH. destruct (roster (clients w) l); reflexivity.
Qed.

Lemma forEach_deliver (rs : transport) (excludeWs : option conn) (message : serverMsg)
    (l : list conn) (w : world) :
  forEach l (fun client =>
      if negb (match excludeWs with Some ws => Nat.eqb client ws | None => false end)
         && readyState_eqb (rs client) OPEN
      then send client message
      else ret tt) w
  = Result (inl tt) w (deliver rs excludeWs message l).
Proof.
  induction l as [|c l IH]; simpl; [reflexivity|].
  unfold deliver, recipient. simpl.
  destruct (negb _ && readyState_eqb (rs c) OPEN).
  - rewrite bind_send, IH. reflexivity.
  - rewrite bind_ret, IH. reflexivity.
Qed.

Lemma broadcastToRoom_eq (rs : transport) (r : string) (message : serverMsg)
    (excludeWs : option conn) (w : world) :
  broadcastToRoom rs r message excludeWs w
  = Result (inl tt) w (deliver rs excludeWs message (members w r)).
Proof.
  unfold broadcastToRoom, rooms_has, members, Map_has. rewrite bind_gets.
  destruct (Map_get String.eqb r (rooms w)) as [s|] eqn:E; simpl; [|reflexivity].
  rewrite (bind_pure _ _ _ _ (rooms_get_some _ _ _ E)).
  apply forEach_deliver.
Qed.

Lemma updateUserList_eq (rs : transport) (r : string) (w : world) :
  updateUserList rs r w =
  match roster (clients w) (members w r) with
  | Some us => Result (inl tt) w (deliver rs None (UserList us) (members w r))
  | None => Result (inr TypeError) w []
  end.
Proof.
  unfold updateUserList, rooms_has, Map_has. rewrite bind_gets.
  pose proof (broadcastToRoom_eq rs r) as Hb. unfold members in *.
  destruct (Map_get String.eqb r (rooms w)) as [s|] eqn:E; simpl; [|reflexivity].
  rewrite (bind_pure _ _ _ _ (rooms_get_some _ _ _ E)).
  unfold bind. rewrite mapM_userOf.
  destruct (roster (clients w) s) as [us|]; cbn [value after sent]; [|reflexivity].
  rewrite Hb, E. reflexivity.
Qed.

(** *** The handlers in closed form *)

Lemma handleSignal_eq (ws : conn) (data : Data.t) (w : world) :
  handleSignal ws data w =
  match Map_get Nat.eqb ws (clients w) with
  | None => Result (inl tt) w []
  | Some sender =>
      match findTarget (Data.targetId data) (Info.roomId sender) (clients w) with
      | Some client =>
          Result (inl tt) w [(client, SignalMsg (Info.userId sender) (Data.signal data))]
      | None => Result (inl tt) w []
      end
  end.
Proof.
  unfold handleSignal, clients_get, clients_entries. rewrite bind_gets.
  destruct (Map_get Nat.eqb ws (clients w)) as [sender|]; [|reflexivity].
  rewrite bind_gets.
  destruct (findTarget _ _ (clients w)); reflexivity.
Qed.

Lemma room_delete_eq (r : string) (ws : conn) (s : list conn) (w : world) :
  Map_get String.eqb r (rooms w) = Some s ->
  room_delete r ws w = Result (inl tt) (setRoom r (Set_delete ws s) w) [].
Proof.
  intro H. unfold room_delete.
  rewrite (bind_pure _ _ _ _ (rooms_get_some _ _ _ H)). reflexivity.
Qed.

Lemma room_add_eq (r : string) (ws : conn) (s : list conn) (w : world) :
  Map_get String.eqb r (rooms w) = Some s ->
  room_add r ws w = Result (inl tt) (setRoom r (Set_add ws s) w) [].
Proof.
  intro H. unfold room_add.
  rewrite (bind_pure _ _ _ _ (rooms_get_some _ _ _ H)). reflexivity.
Qed.

Lemma members_setRoom (r : string) (s : list conn) (w : world) :
  members (setRoom r s w) r = s.
Proof.
  unfold members, setRoom. simpl.
  rewrite (Map_get_set_same _ String.eqb_eq). reflexivity.
Qed.

Lemma handleLeave_eq (rs : transport) (ws : conn) (w : world) :
  handleLeave rs ws w =
  match Map_get Nat.eqb ws (clients w) with
  | None => Result (inl tt) w []
  | Some info =>
      let r := Info.roomId info in
      match Map_get String.eqb r (rooms w) with
      | None => Result (inl tt) (removeClient ws w) []
      | Some s =>
          let rest := Set_delete ws s in
          let w1 := setRoom r rest w in
          match rest with
          | [] => Result (inl tt) (removeClient ws (dropRoom r w1)) []
          | _ :: _ =>
              let left :=
                deliver rs None (UserLeft (Info.userId info) (Info.username info)) rest in
              match roster (clients w) rest with
              | Some us =>
                  Result (inl tt) (removeClient ws w1)
                    (left ++ deliver rs None (UserList us) rest)
              | None => Result (inr TypeError) w1 left
              end
          end
      end
  end.
Proof.
  unfold handleLeave, clients_get. rewrite bind_gets.
  destruct (Map_get Nat.eqb ws (clients w)) as [info|]; [|reflexivity].
  cbv zeta. unfold rooms_has, Map_has. rewrite bind_gets.
  destruct (Map_get String.eqb (Info.roomId info) (rooms w)) as [s|] eqn:E.
  2:{ rewrite bind_ret. reflexivity. }
  rewrite bind_assoc.
  rewrite (bind_quiet _ _ _ _ _ (room_delete_eq _ ws _ _ E)).
  rewrite bind_assoc.
  set (rest := Set_delete ws s).
  set (w1 := setRoom (Info.roomId info) rest w).
  assert (E1 : Map_get String.eqb (Info.roomId info) (rooms w1) = Some rest).
  { unfold w1, setRoom. simpl. apply (Map_get_set_same _ String.eqb_eq). }
  rewrite (bind_pure _ _ _ _ (rooms_get_some _ _ _ E1)).
  destruct rest as [|c rest'] eqn:Er.
  - simpl. unfold rooms_delete, clients_delete. rewrite bind_modify. reflexivity.
  - cbn [List.length Nat.eqb].
    rewrite bind_assoc. unfold bind.
    rewrite broadcastToRoom_eq. cbn [value after sent].
    rewrite updateUserList_eq.
    replace (members w1 (Info.roomId info)) with (c :: rest')
      by (unfold members; now rewrite E1).
    replace (clients w1) with (clients w) by reflexivity.
    destruct (roster (clients w) (c :: rest')) as [us|]; cbn [value after sent].
    + unfold clients_delete, modify. cbn [value after sent].
      rewrite app_nil_r. reflexivity.
    + rewrite app_nil_r. reflexivity.
Qed.

Lemma members_joined (userId : string) (ws : conn) (data : Data.t) (w : world) :
  members (joined userId ws data w) (Data.roomId data)
  = Set_add ws (members w (Data.roomId data)).
Proof.
  unfold joined. unfold members at 1. simpl.
  rewrite (Map_get_set_same _ String.eqb_eq). reflexivity.
Qed.

Lemma handleJoin_tail (rs : transport) (userId : string) (ws : conn) (data : Data.t)
    (w1 : world) (mem : list conn) :
  Map_get String.eqb (Data.roomId data) (rooms w1) = Some mem ->
  (members <- rooms_get (Data.roomId data) ;;
   existingUsers <-
     mapM userOf (filter (fun client => negb (Nat.eqb client ws)) members) ;;
   send ws (RoomJoined (Data.roomId data) userId existingUsers) ;;
   broadcastToRoom rs (Data.roomId data)
     (UserJoined userId (Data.username data)) (Some ws) ;;
   updateUserList rs (Data.roomId data)) w1
  =
  match roster (clients w1) (filter (fun c => negb (Nat.eqb c ws)) mem) with
  | None => Result (inr TypeError) w1 []
  | Some existing =>
      let reply := (ws, RoomJoined (Data.roomId data) userId existing) in
      let notify :=
        deliver rs (Some ws) (UserJoined userId (Data.username data)) mem in
      match roster (clients w1) mem with
      | None => Result (inr TypeError) w1 (reply :: notify)
      | Some us =>
          Result (inl tt) w1 (reply :: notify ++ deliver rs None (UserList us) mem)
      end
  end.
Proof.
  intro E.
  rewrite (bind_pure _ _ _ _ (rooms_get_some _ _ _ E)).
  unfold bind at 1. rewrite mapM_userOf.
  destruct (roster (clients w1) (filter (fun c => negb (Nat.eqb c ws)) mem))
    as [existing|]; cbn [value after sent]; [|reflexivity].
  rewrite bind_send. unfold bind.
  rewrite broadcastToRoom_eq. cbn [value after sent].
  rewrite updateUserList_eq.
  replace (members w1 (Data.roomId data)) with mem
    by (unfold members; now rewrite E).
  destruct (roster (clients w1) mem) as [us|]; cbn [value after sent].
  - reflexivity.
  - rewrite app_nil_r. reflexivity.
Qed.

Lemma handleJoin_eq (rs : transport) (userId : string) (ws : conn) (data : Data.t)
    (w : world) :
  handleJoin rs userId ws data w =
  let r := Data.roomId data in
  let w1 := joined userId ws data w in
  let mem := Set_add ws (members w r) in
  match roster (clients w1) (filter (fun c => negb (Nat.eqb c ws)) mem) with
  | None => Result (inr TypeError) w1 []
  | Some existing =>
      let reply := (ws, RoomJoined r userId existing) in
      let notify := deliver rs (Some ws) (UserJoined userId (Data.username data)) mem in
      match roster (clients w1) mem with
      | None => Result (inr TypeError) w1 (reply :: notify)
      | Some us =>
          Result (inl tt) w1 (reply :: notify ++ deliver rs None (UserList us) mem)
      end
  end.
Proof.
  cbv zeta. unfold handleJoin. cbv zeta.
  unfold clients_set. rewrite bind_modify.
  unfold rooms_has, Map_has. rewrite bind_gets. cbn [rooms].
  assert (Hm : Map_get String.eqb (Data.roomId data) (rooms (joined userId ws data w))
               = Some (Set_add ws (members w (Data.roomId data)))).
  { unfold joined. simpl. apply (Map_get_set_same _ String.eqb_eq). }
  destruct (Map_get String.eqb (Data.roomId data) (rooms w)) as [s|] eqn:E;
    cbn [negb].
  - rewrite bind_ret.
    erewrite bind_quiet; [|apply room_add_eq with (s := s); exact E].
    assert (Hw : setRoom (Data.roomId data) (Set_add ws s)
                   (World (Map_set Nat.eqb ws
                      (Info.mk userId (Data.username data) (Data.roomId data))
                      (clients w)) (rooms w))
                 = joined userId ws data w).
    { unfold joined, setRoom, members. rewrite E. reflexivity. }
    rewrite Hw. apply handleJoin_tail. exact Hm.
  - unfold rooms_set at 1. rewrite bind_modify.
    erewrite bind_quiet;
      [|apply room_add_eq with (s := []); simpl;
        apply (Map_get_set_same _ String.eqb_eq)].
    assert (Hw : setRoom (Data.roomId data) (Set_add ws [])
                   (World (clients (World (Map_set Nat.eqb ws
                      (Info.mk userId (Data.username data) (Data.roomId data))
                      (clients w)) (rooms w)))
                      (Map_set String.eqb (Data.roomId data) []
                        (rooms (World (Map_set Nat.eqb ws
                      (Info.mk userId (Data.username data) (Data.roomId data))
                      (clients w)) (rooms w)))))
                 = joined userId ws data w).
    { unfold joined, setRoom, members. rewrite E. simpl.
      rewrite (Map_set_set _ String.eqb_eq). reflexivity. }
    rewrite Hw. apply handleJoin_tail. exact Hm.
Qed.

(** *** The event handlers in closed form *)

Lemma try_catch_eq (m : M unit) (w : world) :
  try_catch m (fun _ => ret tt) w = caught (m w).
Proof.
  unfold try_catch, caught. destruct (m w) as [[[]|e] w' o]; simpl.
  - reflexivity.
  - rewrite app_nil_r. reflexivity.
Qed.

Lemma onMessage_malformed (rs : transport) (uid : string) (ws : conn) (w : world) :
  onMessage rs uid ws None w = Result (inl tt) w [].
Proof. reflexivity. Qed.

Lemma onMessage_join (rs : transport) (uid : string) (ws : conn) (d : Data.t)
    (w : world) :
  Data.type d = "join" ->
  onMessage rs uid ws (Some d) w = caught (handleJoin rs uid ws d w).
Proof. intro H. unfold onMessage. rewrite try_catch_eq, H. reflexivity. Qed.

Lemma onMessage_signal (rs : transport) (uid : string) (ws : conn) (d : Data.t)
    (w : world) :
  Data.type d = "signal" ->
  onMessage rs uid ws (Some d) w = caught (handleSignal ws d w).
Proof. intro H. unfold onMessage. rewrite try_catch_eq, H. reflexivity. Qed.

Lemma onMessage_leave (rs : transport) (uid : string) (ws : conn) (d : Data.t)
    (w : world) :
  Data.type d = "leave" ->
  onMessage rs uid ws (Some d) w = caught (handleLeave rs ws w).
Proof. intro H. unfold onMessage. rewrite try_catch_eq, H. reflexivity. Qed.

Lemma onMessage_unknown (rs : transport) (uid : string) (ws : conn) (d : Data.t)
    (w : world) :
  Data.type d <> "join" -> Data.type d <> "signal" -> Data.type d <> "leave" ->
  onMessage rs uid ws (Some d) w = Result (inl tt) w [].
Proof.
  intros Hj Hs Hl. unfold onMessage. rewrite try_catch_eq.
  apply String.eqb_neq in Hj, Hs, Hl. rewrite Hj, Hs, Hl. reflexivity.
Qed.

Lemma run_cons_quiet (k : tick) (t : list tick) (w w' : world) :
  step k w = Result (inl tt) w' [] -> run (k :: t) w = run t w'.
Proof. intro H. simpl. unfold bind. rewrite H. simpl. apply result_eta. Qed.

Lemma run_one (k : tick) (w : world) : run [k] w = step k w.
Proof.
  simpl. unfold bind, ret. destruct (step k w) as [[[]|e] w' o]; simpl.
  - rewrite app_nil_r. reflexivity.
  - reflexivity.
Qed.

Lemma step_says (rs : transport) (uid : string) (ws : conn) (d : Data.t) :
  step (says rs uid ws d) = onMessage rs uid ws (Some d).
Proof. reflexivity. Qed.

(** *** The target search *)

Lemma findTarget_Some (targetId roomId : string) (l : list (conn * Info.t)) (c : conn) :
  findTarget targetId roomId l = Some c ->
  exists i, In (c, i) l /\ matches targetId roomId i.
Proof.
  induction l as [|[c' i'] l IH]; simpl; [discriminate|].
  destruct (String.eqb (Info.userId i') targetId && String.eqb (Info.roomId i') roomId)
    eqn:E.
  - intro H. inversion H. subst c'. exists i'. split; [now left|].
    apply andb_true_iff in E. destruct E as [E1 E2].
    apply String.eqb_eq in E1, E2. split; assumption.
  - intro H. destruct (IH H) as [i [Hi Hm]]. exists i. split; [now right | exact Hm].
Qed.

Lemma findTarget_None (targetId roomId : string) (l : list (conn * Info.t)) :
  findTarget targetId roomId l = None ->
  forall c i, In (c, i) l -> ~ matches targetId roomId i.
Proof.
  induction l as [|[c' i'] l IH]; simpl; [intros _ c i []|].
  destruct (String.eqb (Info.userId i') targetId && String.eqb (Info.roomId i') roomId)
    eqn:E; [discriminate|].
  intros H c i [Hc|Hc].
  - inversion Hc. subst. intros [H1 H2].
    rewrite H1, H2, !String.eqb_refl in E. discriminate.
  - exact (IH H c i Hc).
Qed.

Lemma findTarget_first (targetId roomId : string) (before rest : list (conn * Info.t))
    (c : conn) (i : Info.t) :
  (forall c' i', In (c', i') before -> ~ matches targetId roomId i') ->
  matches targetId roomId i ->
  findTarget targetId roomId (before ++ (c, i) :: rest) = Some c.
Proof.
  intros Hb [H1 H2]. induction before as [|[c' i'] before IH]; simpl.
  - rewrite H1, H2, !String.eqb_refl. reflexivity.
  - destruct (String.eqb (Info.userId i') targetId
              && String.eqb (Info.roomId i') roomId) eqn:E.
    + exfalso. apply (Hb c' i'); [now left|].
      apply andb_true_iff in E. destruct E as [E1 E2].
      apply String.eqb_eq in E1, E2. split; assumption.
    + apply IH. intros c0 i0 H0. apply (Hb c0 i0). now right.
Qed.

(** ** Malformed frames *)

(** C9: a frame that [JSON.parse] rejects is caught inside the message
    handler: nothing is sent, the registry and the directory stay as they
    were, no exception escapes, and whatever the relay is given next (a valid
    [signal] from the same connection included) is handled exactly as if the
    malformed frame had never arrived. *)
Theorem C9_malformed_frame_discarded :
  forall (rs : transport) (uid : string) (ws : conn) (w : world),
    step (Tick rs uid (Message ws None)) w = Result (inl tt) w [] /\
    (forall t : list tick,
        run (Tick rs uid (Message ws None) :: t) w = run t w) /\
    (forall (rs' : transport) (uid' : string) (targetId : string) (p : payload),
        run [Tick rs uid (Message ws None); says rs' uid' ws (signal targetId p)] w
        = step (says rs' uid' ws (signal targetId p)) w /\
        step (says rs' uid' ws (signal targetId p)) w
        = caught (handleSignal ws (signal targetId p) w)).
Proof.
  intros rs uid ws w.
  assert (H : step (Tick rs uid (Message ws None)) w = Result (inl tt) w [])
    by reflexivity.
  split; [exact H|]. split.
  - intro t. apply run_cons_quiet. exact H.
  - intros rs' uid' targetId p. rewrite (run_cons_quiet _ _ _ _ H).
    rewrite run_one, step_says. split; [reflexivity|].
    apply onMessage_signal. reflexivity.
Qed.

(** ** Targeted signaling *)

(** C2: a [signal] from a connection with a session changes no state, makes
    at most one send, makes one exactly when some registry entry has the
    target's userId and the sender's roomId, and that send goes to such an
    entry's connection and carries [{type:'signal', fromId, signal}]; with no
    such entry nothing at all is sent. *)
Theorem C2_signal_delivery :
  forall (rs : transport) (uid : string) (ws : conn) (d : Data.t) (w : world)
         (sender : Info.t),
    Data.type d = "signal" ->
    Map_get Nat.eqb ws (clients w) = Some sender ->
    let r := step (says rs uid ws d) w in
    value r = inl tt /\
    after r = w /\
    List.length (sent r) <= 1 /\
    (sent r <> [] <->
     exists c i, In (c, i) (clients w) /\
                 matches (Data.targetId d) (Info.roomId sender) i) /\
    (forall c m, In (c, m) (sent r) ->
       m = SignalMsg (Info.userId sender) (Data.signal d) /\
       exists i, In (c, i) (clients w) /\
                 matches (Data.targetId d) (Info.roomId sender) i) /\
    ((forall c i, In (c, i) (clients w) ->
        ~ matches (Data.targetId d) (Info.roomId sender) i) ->
     sent r = []).
Proof.
  intros rs uid ws d w sender Hd Hs r. subst r.
  rewrite step_says, (onMessage_signal _ _ _ _ _ Hd).
  rewrite handleSignal_eq, Hs.
  destruct (findTarget (Data.targetId d) (Info.roomId sender) (clients w))
    as [c|] eqn:E; unfold caught; simpl.
  - destruct (findTarget_Some _ _ _ _ E) as [i [Hi Hm]].
    split; [reflexivity|]. split; [reflexivity|]. split; [lia|].
    split; [|split].
    + split; [|discriminate]. intros _. exists c, i. split; assumption.
    + intros c0 m [H|[]]. inversion H. subst. split; [reflexivity|].
      exists i. split; assumption.
    + intro Hno. exfalso. exact (Hno c i Hi Hm).
  - pose proof (findTarget_None _ _ _ E) as Hn.
    split; [reflexivity|]. split; [reflexivity|]. split; [lia|].
    split; [|split].
    + split; [congruence|]. intros [c [i [Hi Hm]]]. exfalso. exact (Hn c i Hi Hm).
    + intros c m [].
    + reflexivity.
Qed.

Lemma C2_signal_delivery_witness :
  sent (step (says allOpen "" alice (signal "u2" "offer")) lobby2)
  = [(bob, SignalMsg "u1" "offer")] /\
  List.length (sent (step (says allOpen "" alice (signal "u3" "offer")) lobby2)) <= 1 /\
  after (step (says allOpen "" alice (signal "u3" "offer")) lobby2) = lobby2.
Proof.
  split; [reflexivity|].
  pose proof (C2_signal_delivery allOpen "" alice (signal "u3" "offer") lobby2
                (Info.mk "u1" "alice" "lobby") eq_refl eq_refl) as H.
  cbv zeta in H. destruct H as [_ [H1 [H2 _]]]. split; assumption.
Defined.

(** C10: when two registry entries both carry the target's userId and the
    sender's roomId, the payload goes to the one that comes first in the
    registry's iteration (insertion) order and to no one else; the result is
    a function of the registry contents alone. *)
Theorem C10_first_registered_target :
  forall (rs : transport) (uid : string) (ws : conn) (d : Data.t) (w : world)
         (sender : Info.t) (before mid rest : list (conn * Info.t))
         (c1 c2 : conn) (i1 i2 : Info.t),
    Data.type d = "signal" ->
    Map_get Nat.eqb ws (clients w) = Some sender ->
    clients w = before ++ (c1, i1) :: mid ++ (c2, i2) :: rest ->
    (forall c i, In (c, i) before ->
       ~ matches (Data.targetId d) (Info.roomId sender) i) ->
    matches (Data.targetId d) (Info.roomId sender) i1 ->
    matches (Data.targetId d) (Info.roomId sender) i2 ->
    sent (step (says rs uid ws d) w)
    = [(c1, SignalMsg (Info.userId sender) (Data.signal d))] /\
    (c2 <> c1 -> inbox c2 (sent (step (says rs uid ws d) w)) = []).
Proof.
  intros rs uid ws d w sender before mid rest c1 c2 i1 i2 Hd Hs Hc Hb H1 H2.
  assert (E : sent (step (says rs uid ws d) w)
              = [(c1, SignalMsg (Info.userId sender) (Data.signal d))]).
  { rewrite step_says, (onMessage_signal _ _ _ _ _ Hd).
    rewrite handleSignal_eq, Hs, Hc.
    rewrite (findTarget_first _ _ before _ c1 i1 Hb H1). reflexivity. }
  split; [exact E|].
  intro Hne. rewrite E. unfold inbox. simpl.
  destruct (Nat.eqb c1 c2) eqn:E12; [|reflexivity].
  apply Nat.eqb_eq in E12. congruence.
Qed.

Lemma C10_first_registered_target_witness :
  sent (step (says allOpen "" carol (signal "dup" "offer")) twins)
  = [(alice, SignalMsg "u3" "offer")] /\
  (bob <> alice ->
   inbox bob (sent (step (says allOpen "" carol (signal "dup" "offer")) twins)) = []).
Proof.
  apply (C10_first_registered_target allOpen "" carol (signal "dup" "offer") twins
           (Info.mk "u3" "carol" "lobby") [] []
           [(carol, Info.mk "u3" "carol" "lobby")]
           alice bob (Info.mk "dup" "alice" "lobby") (Info.mk "dup" "bob" "lobby")).
  - reflexivity.
  - reflexivity.
  - reflexivity.
  - intros c i [].
  - split; reflexivity.
  - split; reflexivity.
Defined.

(** ** Sends to connections that are not open *)

Lemma deliver_In (rs : transport) (excludeWs : option conn) (message m : serverMsg)
    (l : list conn) (c : conn) :
  In (c, m) (deliver rs excludeWs message l) <->
  In c l /\ recipient rs excludeWs c = true /\ m = message.
Proof.
  unfold deliver. rewrite in_map_iff. split.
  - intros [x [Hx Hin]]. inversion Hx. subst. apply filter_In in Hin.
    destruct Hin. repeat split; assumption.
  - intros [Hin [Hr ->]]. exists c. split; [reflexivity|].
    apply filter_In. split; assumption.
Qed.

Lemma recipient_open (rs : transport) (excludeWs : option conn) (c : conn) :
  recipient rs excludeWs c = true -> rs c = OPEN.
Proof.
  unfold recipient. intro H. apply andb_true_iff in H. destruct H as [_ H].
  destruct (rs c); simpl in H; congruence.
Qed.

(** Room broadcasts do skip every member whose transport is not open. *)
Lemma broadcast_skips_not_open (rs : transport) (r : string) (message m : serverMsg)
    (excludeWs : option conn) (w : world) (c : conn) :
  In (c, m) (sent (broadcastToRoom rs r message excludeWs w)) -> rs c = OPEN.
Proof.
  rewrite broadcastToRoom_eq. simpl. intro H. apply deliver_In in H.
  destruct H as [_ [H _]]. exact (recipient_open _ _ _ H).
Qed.

(** C8: the direct delivery of a [signal] has no [readyState] guard.  With
    alice and bob in the lobby and bob's transport closing, alice's signal to
    bob makes the relay call [send] on bob's connection, while a broadcast to
    the lobby at the same moment skips bob. *)
Theorem C8_signal_sent_to_closing_target :
  bobClosing bob = CLOSING /\
  sent (step (says bobClosing "" alice (signal "u2" "offer")) lobby2)
  = [(bob, SignalMsg "u1" "offer")] /\
  sent (broadcastToRoom bobClosing "lobby" (UserJoined "u9" "dave") None lobby2)
  = [(alice, UserJoined "u9" "dave")].
Proof. split; [reflexivity|]. split; reflexivity. Qed.

(** ** Leave, close and error *)

(** C3, as stated, fails for the error event: with alice and bob in the
    lobby, an error on alice's connection neither removes alice nor tells bob
    anything. *)
Lemma C3_error_event_runs_no_cleanup :
  ~ runs_cleanup allOpen (Error alice) alice lobby2.
Proof. intros [H _]. vm_compute in H. discriminate. Qed.

(** C3, amended: the explicit [leave] message and the close event both run
    [handleLeave] (the message handler additionally swallows an exception);
    the error event does nothing; hence when both error and close fire for a
    connection, in either order, the effect is that of one [handleLeave]. *)
Theorem C3_leave_and_close_share_cleanup :
  forall (rs rs' : transport) (uid uid' : string) (ws : conn) (w : world),
    step (says rs uid ws leave) w = caught (handleLeave rs ws w) /\
    step (Tick rs uid (Close ws)) w = handleLeave rs ws w /\
    step (Tick rs' uid' (Error ws)) w = Result (inl tt) w [] /\
    run [Tick rs' uid' (Error ws); Tick rs uid (Close ws)] w = handleLeave rs ws w /\
    run [Tick rs uid (Close ws); Tick rs' uid' (Error ws)] w = handleLeave rs ws w.
Proof.
  intros rs rs' uid uid' ws w.
  split; [rewrite step_says; apply onMessage_leave; reflexivity|].
  split; [reflexivity|]. split; [reflexivity|]. split.
  - rewrite (run_cons_quiet _ _ w w) by reflexivity. apply run_one.
  - change (run [Tick rs uid (Close ws); Tick rs' uid' (Error ws)] w)
      with ((handleLeave rs ws ;; onError ws ;; ret tt) w).
    unfold bind, onError, ret.
    destruct (handleLeave rs ws w) as [[[]|e] w' o]; simpl.
    + rewrite app_nil_r. reflexivity.
    + reflexivity.
Qed.

(** ** No empty room persists *)

Lemma no_empty_room_setRoom (r : string) (s : list conn) (w : world) :
  no_empty_room w -> s <> [] -> no_empty_room (setRoom r s w).
Proof.
  intros Hw Hs r' s'. unfold setRoom. simpl.
  destruct (String.eqb_spec r' r) as [->|Hne].
  - rewrite (Map_get_set_same _ String.eqb_eq). intro H. inversion H. now subst.
  - rewrite (Map_get_set_other _ String.eqb_eq) by exact Hne. apply Hw.
Qed.

Lemma no_empty_room_dropRoom (r : string) (s : list conn) (w : world) :
  no_empty_room w -> no_empty_room (dropRoom r (setRoom r s w)).
Proof.
  intros Hw r' s'. unfold dropRoom, setRoom. simpl.
  destruct (String.eqb_spec r' r) as [->|Hne].
  - rewrite (Map_get_delete_same String.eqb). discriminate.
  - rewrite (Map_get_delete_other _ String.eqb_eq) by exact Hne.
    rewrite (Map_get_set_other _ String.eqb_eq) by exact Hne. apply Hw.
Qed.

Lemma no_empty_room_removeClient (ws : conn) (w : world) :
  no_empty_room w -> no_empty_room (removeClient ws w).
Proof. intros Hw r s. exact (Hw r s). Qed.

Lemma handleJoin_after (rs : transport) (uid : string) (ws : conn) (d : Data.t)
    (w : world) :
  after (handleJoin rs uid ws d w) = joined uid ws d w.
Proof.
  rewrite handleJoin_eq. cbv zeta.
  destruct (roster (clients (joined uid ws d w))
              (filter (fun c => negb (Nat.eqb c ws))
                 (Set_add ws (members w (Data.roomId d))))); [|reflexivity].
  destruct (roster (clients (joined uid ws d w))
              (Set_add ws (members w (Data.roomId d)))); reflexivity.
Qed.

Lemma no_empty_room_joined (uid : string) (ws : conn) (d : Data.t) (w : world) :
  no_empty_room w -> no_empty_room (joined uid ws d w).
Proof.
  intro Hw.
  apply (no_empty_room_setRoom (Data.roomId d)
           (Set_add ws (members w (Data.roomId d)))
           (World (Map_set Nat.eqb ws
                     (Info.mk uid (Data.username d) (Data.roomId d)) (clients w))
                  (rooms w))).
  - exact Hw.
  - apply Set_add_nonempty.
Qed.

Lemma handleLeave_no_empty_room (rs : transport) (ws : conn) (w : world) :
  no_empty_room w -> no_empty_room (after (handleLeave rs ws w)).
Proof.
  intro Hw. rewrite handleLeave_eq.
  destruct (Map_get Nat.eqb ws (clients w)) as [info|]; [|exact Hw].
  cbv zeta.
  destruct (Map_get String.eqb (Info.roomId info) (rooms w)) as [s|];
    [|apply no_empty_room_removeClient; exact Hw].
  destruct (Set_delete ws s) as [|c rest] eqn:E.
  - simpl. apply no_empty_room_removeClient, no_empty_room_dropRoom. exact Hw.
  - assert (H1 : no_empty_room (setRoom (Info.roomId info) (c :: rest) w))
      by (apply no_empty_room_setRoom; [exact Hw | discriminate]).
    destruct (roster (clients w) (c :: rest)); simpl.
    + apply no_empty_room_removeClient. exact H1.
    + exact H1.
Qed.

Lemma step_no_empty_room (k : tick) (w : world) :
  no_empty_room w -> no_empty_room (after (step k w)).
Proof.
  intro Hw. destruct k as [rs uid [ws [d|]|ws|ws]]; unfold step;
    cbn [tick_event tick_ready tick_random].
  - unfold onMessage. rewrite try_catch_eq. unfold caught. cbn [after].
    destruct (String.eqb (Data.type d) "join").
    { rewrite handleJoin_after. apply no_empty_room_joined. exact Hw. }
    destruct (String.eqb (Data.type d) "signal").
    { rewrite handleSignal_eq.
      destruct (Map_get Nat.eqb ws (clients w)) as [sender|]; [|exact Hw].
      destruct (findTarget _ _ _); exact Hw. }
    destruct (String.eqb (Data.type d) "leave").
    { apply handleLeave_no_empty_room. exact Hw. }
    exact Hw.
  - exact Hw.
  - apply handleLeave_no_empty_room. exact Hw.
  - exact Hw.
Qed.

Lemma run_cons_after (k : tick) (t : list tick) (w : world) :
  after (run (k :: t) w) =
  match value (step k w) with
  | inl _ => after (run t (after (step k w)))
  | inr _ => after (step k w)
  end.
Proof. simpl. unfold bind. destruct (value (step k w)); reflexivity. Qed.

Lemma run_no_empty_room (t : list tick) (w : world) :
  no_empty_room w -> no_empty_room (after (run t w)).
Proof.
  revert w. induction t as [|k t IH]; intros w Hw; [exact Hw|].
  rewrite run_cons_after. pose proof (step_no_empty_room k w Hw) as Hk.
  destruct (value (step k w)); [apply IH|]; exact Hk.
Qed.

Lemma Set_delete_last (ws : conn) : Set_delete ws [ws] = [].
Proof. unfold Set_delete. simpl. rewrite Nat.eqb_refl. reflexivity. Qed.

(** C4: in every state the relay reaches from the empty one, whatever the
    events, a roomId is in the directory exactly when its member set is
    non-empty; a join naming an absent roomId creates the room with the
    joiner as its only member, and when the connection that leaves (by
    message or by close) was the room's last member the entry is deleted. *)
Theorem C4_room_present_iff_nonempty :
  (forall (t : list tick) (r : string),
      Map_has String.eqb r (rooms (after (run t init))) = true
      <-> members (after (run t init)) r <> []) /\
  (forall (rs : transport) (uid : string) (ws : conn) (d : Data.t) (w : world),
      Data.type d = "join" ->
      Map_has String.eqb (Data.roomId d) (rooms w) = false ->
      Map_has String.eqb (Data.roomId d)
        (rooms (after (step (says rs uid ws d) w))) = true /\
      members (after (step (says rs uid ws d) w)) (Data.roomId d) = [ws]) /\
  (forall (rs : transport) (uid : string) (ws : conn) (e : event) (w : world)
          (info : Info.t) (s : list conn),
      e = Close ws \/ e = Message ws (Some leave) ->
      Map_get Nat.eqb ws (clients w) = Some info ->
      Map_get String.eqb (Info.roomId info) (rooms w) = Some s ->
      Set_delete ws s = [] ->
      Map_has String.eqb (Info.roomId info)
        (rooms (after (step (Tick rs uid e) w))) = false).
Proof.
  split; [|split].
  - intros t r.
    assert (Hinv : no_empty_room (after (run t init))).
    { apply run_no_empty_room. intros r' s' H. discriminate. }
    unfold Map_has, members.
    destruct (Map_get String.eqb r (rooms (after (run t init)))) as [s|] eqn:E.
    + split; [intros _; exact (Hinv r s E) | reflexivity].
    + split; [discriminate | intro H; now elim H].
  - intros rs uid ws d w Hd Hno.
    rewrite step_says, (onMessage_join _ _ _ _ _ Hd). unfold caught. cbn [after].
    rewrite handleJoin_after. unfold Map_has. rewrite members_joined.
    unfold joined. cbn [rooms].
    rewrite (Map_get_set_same _ String.eqb_eq).
    split; [reflexivity|].
    unfold Map_has in Hno. unfold members.
    destruct (Map_get String.eqb (Data.roomId d) (rooms w)); [discriminate|].
    reflexivity.
  - intros rs uid ws e w info s He Hi Hs Hd.
    assert (Ha : after (step (Tick rs uid e) w) = after (handleLeave rs ws w)).
    { destruct He as [->| ->]; [reflexivity|].
      change (step (Tick rs uid (Message ws (Some leave))) w)
        with (onMessage rs uid ws (Some leave) w).
      rewrite (onMessage_leave rs uid ws leave w eq_refl). reflexivity. }
    rewrite Ha, handleLeave_eq, Hi. cbv zeta. rewrite Hs, Hd.
    unfold Map_has, removeClient, dropRoom. cbn [after rooms].
    rewrite (Map_get_delete_same String.eqb). reflexivity.
Qed.

Lemma C4_room_present_iff_nonempty_witness :
  (Map_has String.eqb "lobby" (rooms (after (step (says allOpen "u1" alice
      (join "alice" "lobby")) init))) = true /\
   members (after (step (says allOpen "u1" alice (join "alice" "lobby")) init))
      "lobby" = [alice]) /\
  Map_has String.eqb "den"
    (rooms (after (step (Tick allOpen "" (Close carol)) lobby2))) = false.
Proof.
  destruct C4_room_present_iff_nonempty as [_ [Hjoin Hleave]]. split.
  - apply (Hjoin allOpen "u1" alice (join "alice" "lobby") init); reflexivity.
  - apply (Hleave allOpen "" carol (Close carol) lobby2
             (Info.mk "u3" "carol" "den") [carol]).
    + left. reflexivity.
    + reflexivity.
    + reflexivity.
    + reflexivity.
Defined.

(** ** Rosters and inboxes *)

Lemma roster_bound (w : world) (l : list conn) :
  (forall c, In c l -> bound w c) -> exists us, roster (clients w) l = Some us.
Proof.
  induction l as [|c l IH]; intro H; simpl.
  - exists []. reflexivity.
  - destruct (H c (or_introl eq_refl)) as [i Hi]. rewrite Hi.
    destruct IH as [us Hus]; [intros c' Hc'; apply H; now right|].
    rewrite Hus. eexists. reflexivity.
Qed.

Lemma roster_entries (cl : list (conn * Info.t)) (l : list conn) (us : list user) :
  roster cl l = Some us ->
  Forall2 (fun c u => exists i, Map_get Nat.eqb c cl = Some i /\
                                u = User (Info.userId i) (Info.username i)) l us.
Proof.
  revert us. induction l as [|c l IH]; intros us; simpl.
  - intro H. inversion H. constructor.
  - destruct (Map_get Nat.eqb c cl) as [i|] eqn:E; [|discriminate].
    destruct (roster cl l) as [us'|]; [|discriminate].
    intro H. inversion H. constructor.
    + exists i. split; [exact E | reflexivity].
    + apply IH. reflexivity.
Qed.

Lemma roster_set_other (cl : list (conn * Info.t)) (ws : conn) (i : Info.t)
    (l : list conn) :
  ~ In ws l -> roster (Map_set Nat.eqb ws i cl) l = roster cl l.
Proof.
  induction l as [|c l IH]; intro H; simpl; [reflexivity|].
  rewrite (Map_get_set_other _ Nat.eqb_eq).
  - rewrite IH; [reflexivity|]. intro Hin. apply H. now right.
  - intro E. apply H. left. exact E.
Qed.

Lemma filter_other_not_In (ws : conn) (l : list conn) :
  ~ In ws (filter (fun c => negb (Nat.eqb c ws)) l).
Proof.
  intro H. apply filter_In in H. destruct H as [_ H].
  rewrite Nat.eqb_refl in H. discriminate.
Qed.

Lemma filter_other_Set_add (ws : conn) (l : list conn) :
  filter (fun c => negb (Nat.eqb c ws)) (Set_add ws l)
  = filter (fun c => negb (Nat.eqb c ws)) l.
Proof.
  unfold Set_add. destruct (Set_has ws l); [reflexivity|].
  rewrite filter_app. simpl. rewrite Nat.eqb_refl. simpl. apply app_nil_r.
Qed.

Lemma deliver_exclude (rs : transport) (ws : conn) (message : serverMsg)
    (l : list conn) :
  deliver rs (Some ws) message l
  = deliver rs None message (filter (fun c => negb (Nat.eqb c ws)) l).
Proof.
  unfold deliver, recipient. f_equal.
  induction l as [|c l IH]; simpl; [reflexivity|].
  destruct (Nat.eqb c ws); simpl; [exact IH|].
  destruct (readyState_eqb (rs c) OPEN); rewrite IH; reflexivity.
Qed.

Lemma inbox_app (c : conn) (a b : list (conn * serverMsg)) :
  inbox c (a ++ b) = inbox c a ++ inbox c b.
Proof. unfold inbox. rewrite filter_app, map_app. reflexivity. Qed.

Lemma inbox_deliver_absent (rs : transport) (ex : option conn) (message : serverMsg)
    (l : list conn) (c : conn) :
  ~ In c l -> inbox c (deliver rs ex message l) = [].
Proof.
  induction l as [|x l IH]; intro H; [reflexivity|].
  unfold deliver, inbox in *. simpl.
  assert (Hx : Nat.eqb x c = false).
  { apply Nat.eqb_neq. intro E. apply H. now left. }
  destruct (recipient rs ex x); simpl; rewrite ?Hx; apply IH;
    intro Hin; apply H; now right.
Qed.

Lemma inbox_deliver_once (rs : transport) (ex : option conn) (message : serverMsg)
    (l : list conn) (c : conn) :
  NoDup l -> In c l -> recipient rs ex c = true ->
  inbox c (deliver rs ex message l) = [message].
Proof.
  induction l as [|x l IH]; intros Hnd Hin Hr; [destruct Hin|].
  inversion Hnd as [|? ? Hx Hnd']. subst.
  destruct (Nat.eq_dec x c) as [->|Hne].
  - pose proof (inbox_deliver_absent rs ex message l c Hx) as Ha.
    unfold deliver, inbox in *. simpl. rewrite Hr. simpl.
    rewrite Nat.eqb_refl. simpl. rewrite Ha. reflexivity.
  - destruct Hin as [E|Hin]; [contradiction|].
    specialize (IH Hnd' Hin Hr).
    unfold deliver, inbox in *. simpl.
    destruct (recipient rs ex x); simpl.
    + apply Nat.eqb_neq in Hne. rewrite Hne. exact IH.
    + exact IH.
Qed.

Lemma recipient_all (rs : transport) (c : conn) :
  rs c = OPEN -> recipient rs None c = true.
Proof. intro H. unfold recipient. rewrite H. reflexivity. Qed.

Lemma step_leave_or_close (rs : transport) (uid : string) (ws : conn) (e : event)
    (w : world) :
  e = Close ws \/ e = Message ws (Some leave) ->
  after (step (Tick rs uid e) w) = after (handleLeave rs ws w) /\
  sent (step (Tick rs uid e) w) = sent (handleLeave rs ws w) /\
  (value (handleLeave rs ws w) = inl tt -> value (step (Tick rs uid e) w) = inl tt).
Proof.
  intros [->| ->].
  - repeat split; auto.
  - change (step (Tick rs uid (Message ws (Some leave))) w)
      with (onMessage rs uid ws (Some leave) w).
    rewrite (onMessage_leave rs uid ws leave w eq_refl). repeat split; auto.
Qed.

(** ** Departures *)

(** C5, as stated, fails in two ways.  After [aliceMoves] bob leaves the
    lobby: carol is sent [user-left] and no [user-list], because the roster
    computation raises on alice, who has no session.  And with alice and bob
    in the lobby and bob's transport closing, alice's departure sends bob
    nothing. *)
Lemma C5_remaining_member_not_told :
  run aliceMoves init = Result (inl tt) stale3 (sent (run aliceMoves init)) /\
  ~ departure_announced allOpen bob stale3 /\
  ~ departure_announced bobClosing alice lobby2.
Proof.
  split; [vm_compute; reflexivity|].
  split; intro H.
  - destruct (H (Info.mk "u2" "bob" "lobby") carol eq_refl) as [users Hu].
    + vm_compute. right. left. reflexivity.
    + vm_compute in Hu. discriminate Hu.
  - destruct (H (Info.mk "u1" "alice" "lobby") bob eq_refl) as [users Hu].
    + vm_compute. left. reflexivity.
    + vm_compute in Hu. discriminate Hu.
Qed.

(** C5, amended: when a connection with a session leaves, by message or by
    close, and its room keeps other members (all of them with sessions), the
    relay first broadcasts [user-left] with the departed userId and username
    to the remaining members and then [user-list] with the roster of exactly
    the remaining members, so each remaining member whose transport is open
    gets these two messages in this order; when no member remains, nothing
    is sent. *)
Theorem C5_departure_broadcast :
  forall (rs : transport) (uid : string) (ws : conn) (e : event) (w : world)
         (info : Info.t) (s : list conn),
    e = Close ws \/ e = Message ws (Some leave) ->
    Map_get Nat.eqb ws (clients w) = Some info ->
    Map_get String.eqb (Info.roomId info) (rooms w) = Some s ->
    (forall c, In c (Set_delete ws s) -> bound w c) ->
    let rest := Set_delete ws s in
    let res := step (Tick rs uid e) w in
    let left := UserLeft (Info.userId info) (Info.username info) in
    (rest <> [] ->
     exists users,
       roster (clients w) rest = Some users /\
       value res = inl tt /\
       members (after res) (Info.roomId info) = rest /\
       sent res = deliver rs None left rest ++ deliver rs None (UserList users) rest /\
       (NoDup rest ->
        forall c, In c rest -> rs c = OPEN ->
                  inbox c (sent res) = [left; UserList users])) /\
    (rest = [] -> sent res = []).
Proof.
  intros rs uid ws e w info s He Hi Hs Hb rest res left.
  destruct (step_leave_or_close rs uid ws e w He) as [Ha [Hsent Hv]].
  fold res in Ha, Hsent, Hv.
  assert (Heq := handleLeave_eq rs ws w). rewrite Hi in Heq. cbv zeta in Heq.
  rewrite Hs in Heq. fold rest in Heq.
  destruct (roster_bound w rest Hb) as [users Hu].
  split.
  - intro Hne. exists users. destruct rest as [|c0 rest0] eqn:Er; [congruence|].
    rewrite Hu in Heq. rewrite Heq in Ha, Hsent, Hv. cbn [after sent value] in *.
    split; [exact Hu|]. split; [apply Hv; reflexivity|]. split.
    { rewrite Ha. unfold removeClient, members. cbn [rooms setRoom].
      rewrite (Map_get_set_same _ String.eqb_eq). reflexivity. }
    split; [exact Hsent|].
    intros Hnd c Hc Ho. rewrite Hsent, inbox_app.
    rewrite !inbox_deliver_once by (auto using recipient_all). reflexivity.
  - intro Hnil. rewrite Hnil in Heq. rewrite Hsent, Heq. reflexivity.
Qed.

Lemma C5_departure_broadcast_witness :
  sent (step (Tick allOpen "" (Close alice)) lobby2)
  = [(bob, UserLeft "u1" "alice"); (bob, UserList [User "u2" "bob"])] /\
  sent (step (Tick allOpen "" (Close carol)) lobby2) = [].
Proof.
  split.
  - destruct (C5_departure_broadcast allOpen "" alice (Close alice) lobby2
                (Info.mk "u1" "alice" "lobby") [alice; bob]
                (or_introl eq_refl) eq_refl eq_refl) as [H _].
    + intros c [<-|[]]. exists (Info.mk "u2" "bob" "lobby"). reflexivity.
    + destruct H as [users [Hu [_ [_ [Hs _]]]]]; [discriminate|].
      vm_compute in Hu. inversion Hu. subst users. exact Hs.
  - destruct (C5_departure_broadcast allOpen "" carol (Close carol) lobby2
                (Info.mk "u3" "carol" "den") [carol]
                (or_introl eq_refl) eq_refl eq_refl) as [_ H].
    + intros c [].
    + apply H. reflexivity.
Defined.

(** ** Joining *)

(** C6, as stated, fails in two ways.  After [aliceMoves] a newcomer's join
    to the lobby is not answered at all: the roster computation raises on
    alice, who has no session.  And with bob's transport closing, bob, a
    member of the lobby, is not sent [user-joined]. *)
Lemma C6_join_not_answered :
  run aliceMoves init = Result (inl tt) stale3 (sent (run aliceMoves init)) /\
  Map_get Nat.eqb 4 (clients stale3) = None /\
  ~ join_answered allOpen "u4" 4 (join "dave" "lobby") stale3 /\
  ~ join_answered bobClosing "u4" 4 (join "dave" "lobby") lobby2.
Proof.
  split; [vm_compute; reflexivity|].
  split; [reflexivity|]. split.
  - intros [[users H] _]. vm_compute in H. exact H.
  - intros [_ H]. specialize (H bob).
    assert (Hin : In bob (members lobby2 (Data.roomId (join "dave" "lobby"))))
      by (vm_compute; right; left; reflexivity).
    assert (Hne : bob <> 4) by discriminate.
    specialize (H Hin Hne). vm_compute in H.
    repeat (destruct H as [H|H]; [discriminate H|]). exact H.
Qed.

(** C6, amended: a [join] from a connection without a session, into a room whose
    present members all have sessions, completes; the first send is the
    [room-joined] reply to the sender, with the roomId of the message, the
    generated userId and the roster of the members present before the join
    other than the sender (empty when the room did not exist); after it come
    the [user-joined] notifications to those members and then the
    [user-list], with the roster of the room as it now is, to every member
    including the sender (broadcasts reach the members whose transport is
    open). *)
Theorem C6_join_reply_then_notifications :
  forall (rs : transport) (uid : string) (ws : conn) (d : Data.t) (w : world),
    Data.type d = "join" ->
    Map_get Nat.eqb ws (clients w) = None ->
    (forall c, In c (members w (Data.roomId d)) -> c <> ws -> bound w c) ->
    let r := Data.roomId d in
    let prev := filter (fun c => negb (Nat.eqb c ws)) (members w r) in
    let res := step (says rs uid ws d) w in
    exists users all,
      roster (clients w) prev = Some users /\
      value res = inl tt /\
      Map_get Nat.eqb ws (clients (after res))
        = Some (Info.mk uid (Data.username d) r) /\
      members (after res) r = Set_add ws (members w r) /\
      roster (clients (after res)) (members (after res) r) = Some all /\
      sent res =
        (ws, RoomJoined r uid users)
        :: deliver rs None (UserJoined uid (Data.username d)) prev
        ++ deliver rs None (UserList all) (members (after res) r) /\
      (Map_has String.eqb r (rooms w) = false ->
       users = [] /\ all = [User uid (Data.username d)] /\
       members (after res) r = [ws]).
Proof.
  intros rs uid ws d w Hd Hnone Hb r prev res.
  assert (Hprev : forall c, In c prev -> bound w c).
  { intros c Hc. apply filter_In in Hc. destruct Hc as [Hin Hne].
    apply Hb; [exact Hin|]. intro E. subst c. rewrite Nat.eqb_refl in Hne.
    discriminate. }
  destruct (roster_bound w prev Hprev) as [users Hu].
  set (me := Info.mk uid (Data.username d) r).
  set (w1 := joined uid ws d w).
  assert (Hget : Map_get Nat.eqb ws (clients w1) = Some me).
  { unfold w1, joined. cbn [clients]. apply (Map_get_set_same _ Nat.eqb_eq). }
  assert (Hall : exists all, roster (clients w1) (Set_add ws (members w r)) = Some all).
  { apply roster_bound. intros c Hc. apply Set_add_In in Hc.
    destruct (Nat.eq_dec c ws) as [->|Hne]; [exists me; exact Hget|].
    destruct Hc as [Hc|Hc]; [contradiction|].
    destruct (Hb c Hc Hne) as [i Hi]. exists i.
    unfold w1, joined. cbn [clients].
    rewrite (Map_get_set_other _ Nat.eqb_eq) by exact Hne. exact Hi. }
  destruct Hall as [all Hall].
  assert (Hu1 : roster (clients w1)
                  (filter (fun c => negb (Nat.eqb c ws)) (Set_add ws (members w r)))
                = Some users).
  { rewrite filter_other_Set_add. unfold w1, joined. cbn [clients].
    rewrite roster_set_other by apply filter_other_not_In. exact Hu. }
  assert (Hres : res = Result (inl tt) w1
            ((ws, RoomJoined r uid users)
             :: deliver rs None (UserJoined uid (Data.username d)) prev
             ++ deliver rs None (UserList all) (Set_add ws (members w r)))).
  { unfold res. rewrite step_says, (onMessage_join _ _ _ _ _ Hd), handleJoin_eq.
    cbv zeta. fold r w1. rewrite Hu1, Hall. unfold caught. cbn [after sent].
    rewrite deliver_exclude, filter_other_Set_add. reflexivity. }
  assert (Hmem : members w1 r = Set_add ws (members w r))
    by apply members_joined.
  exists users, all. rewrite Hres. cbn [value after sent]. rewrite Hmem.
  split; [exact Hu|]. split; [reflexivity|]. split; [exact Hget|].
  split; [reflexivity|]. split; [exact Hall|]. split; [reflexivity|].
  intro Hno. unfold Map_has in Hno.
  assert (Hnil : members w r = []).
  { unfold members. destruct (Map_get String.eqb r (rooms w)); [discriminate|].
    reflexivity. }
  unfold prev in Hu. rewrite Hnil in Hu, Hall |- *.
  change (Set_add ws []) with [ws] in Hall |- *.
  cbn [filter roster] in Hu. cbn [roster] in Hall. rewrite Hget in Hall.
  inversion Hu. inversion Hall. split; [reflexivity|]. split; reflexivity.
Qed.

Lemma C6_join_reply_then_notifications_witness :
  sent (step (says allOpen "u4" 4 (join "dave" "lobby")) lobby2)
  = [(4, RoomJoined "lobby" "u4" [User "u1" "alice"; User "u2" "bob"]);
     (alice, UserJoined "u4" "dave"); (bob, UserJoined "u4" "dave");
     (alice, UserList [User "u1" "alice"; User "u2" "bob"; User "u4" "dave"]);
     (bob, UserList [User "u1" "alice"; User "u2" "bob"; User "u4" "dave"]);
     (4, UserList [User "u1" "alice"; User "u2" "bob"; User "u4" "dave"])].
Proof.
  destruct (C6_join_reply_then_notifications allOpen "u4" 4 (join "dave" "lobby")
              lobby2 eq_refl eq_refl) as [users [all [Hu [_ [_ [Hm [Ha [Hs _]]]]]]]].
  - intros c [<-|[<-|[]]] _; eexists; reflexivity.
  - rewrite Hm in Ha, Hs. vm_compute in Hu, Ha. inversion Hu. inversion Ha.
    subst users all. exact Hs.
Defined.

(** ** Idempotent cleanup *)

Lemma handleLeave_unbound (rs : transport) (ws : conn) (w : world) :
  Map_get Nat.eqb ws (clients w) = None ->
  handleLeave rs ws w = Result (inl tt) w [].
Proof. intro H. rewrite handleLeave_eq, H. reflexivity. Qed.

Lemma handleLeave_done (rs : transport) (ws : conn) (w : world) :
  value (handleLeave rs ws w) = inl tt ->
  Map_get Nat.eqb ws (clients (after (handleLeave rs ws w))) = None.
Proof.
  rewrite handleLeave_eq.
  destruct (Map_get Nat.eqb ws (clients w)) as [info|] eqn:E; [|intros _; exact E].
  cbv zeta.
  destruct (Map_get String.eqb (Info.roomId info) (rooms w)) as [s|].
  - destruct (Set_delete ws s) as [|c rest].
    + intros _. apply (Map_get_delete_same Nat.eqb).
    + destruct (roster (clients w) (c :: rest)); [|discriminate].
      intros _. apply (Map_get_delete_same Nat.eqb).
  - intros _. apply (Map_get_delete_same Nat.eqb).
Qed.

Lemma handleLeave_completes (rs : transport) (ws : conn) (w : world) :
  (forall info s,
      Map_get Nat.eqb ws (clients w) = Some info ->
      Map_get String.eqb (Info.roomId info) (rooms w) = Some s ->
      forall c, In c (Set_delete ws s) -> bound w c) ->
  value (handleLeave rs ws w) = inl tt.
Proof.
  intro H. rewrite handleLeave_eq.
  destruct (Map_get Nat.eqb ws (clients w)) as [info|] eqn:E; [|reflexivity].
  cbv zeta.
  destruct (Map_get String.eqb (Info.roomId info) (rooms w)) as [s|] eqn:Es;
    [|reflexivity].
  destruct (Set_delete ws s) as [|c rest] eqn:Er; [reflexivity|].
  destruct (roster_bound w (c :: rest)) as [us Hus].
  - rewrite <- Er. exact (H info s eq_refl Es).
  - rewrite Hus. reflexivity.
Qed.

(** A cleanup for a connection that has no session is a no-op; and after a
    [leave] from a connection whose room members all have sessions, a second
    [leave] from it, or its close event, sends nothing, raises nothing and
    leaves the registry and the directory as they are. *)
Lemma cleanup_idempotent :
  forall (rs rs' : transport) (uid uid' : string) (ws : conn) (w : world),
    (Map_get Nat.eqb ws (clients w) = None ->
     step (says rs uid ws leave) w = Result (inl tt) w [] /\
     step (Tick rs uid (Close ws)) w = Result (inl tt) w []) /\
    ((forall info s,
         Map_get Nat.eqb ws (clients w) = Some info ->
         Map_get String.eqb (Info.roomId info) (rooms w) = Some s ->
         forall c, In c (Set_delete ws s) -> bound w c) ->
     let w1 := after (step (says rs uid ws leave) w) in
     step (says rs' uid' ws leave) w1 = Result (inl tt) w1 [] /\
     step (Tick rs' uid' (Close ws)) w1 = Result (inl tt) w1 []).
Proof.
  intros rs rs' uid uid' ws w.
  assert (Hnoop : forall rs0 uid0 w0,
             Map_get Nat.eqb ws (clients w0) = None ->
             step (says rs0 uid0 ws leave) w0 = Result (inl tt) w0 [] /\
             step (Tick rs0 uid0 (Close ws)) w0 = Result (inl tt) w0 []).
  { intros rs0 uid0 w0 H0. split.
    - rewrite step_says, (onMessage_leave rs0 uid0 ws leave w0 eq_refl).
      rewrite (handleLeave_unbound rs0 ws w0 H0). reflexivity.
    - exact (handleLeave_unbound rs0 ws w0 H0). }
  split; [apply Hnoop|].
  intros Hb w1. apply Hnoop. unfold w1.
  rewrite step_says, (onMessage_leave rs uid ws leave w eq_refl).
  unfold caught. cbn [after]. apply handleLeave_done.
  apply handleLeave_completes. exact Hb.
Qed.

Example cleanup_idempotent_at_lobby :
  step (Tick allOpen "" (Close 9)) lobby2 = Result (inl tt) lobby2 [] /\
  step (Tick allOpen "" (Close alice))
       (after (step (says allOpen "" alice leave) lobby2))
  = Result (inl tt) (after (step (says allOpen "" alice leave) lobby2)) [].
Proof.
  destruct (cleanup_idempotent allOpen allOpen "" "" 9 lobby2) as [H1 _].
  destruct (cleanup_idempotent allOpen allOpen "" "" alice lobby2) as [_ H2].
  split.
  - apply H1. reflexivity.
  - apply H2. intros info s Hi Hs c Hc.
    vm_compute in Hi. inversion Hi. subst info.
    vm_compute in Hs. inversion Hs. subst s.
    destruct Hc as [<-|[]]. eexists. reflexivity.
Qed.

(** C7: the second cleanup is not a no-op when the first one raised.  After
    [aliceMoves] bob leaves the lobby: the roster computation meets alice,
    who has no session, and raises after [user-left] went out, so bob's
    session is never deleted.  bob's second [leave] sends [user-left] to the
    lobby once more, and his close event, handled outside any [try], raises
    out of the handler. *)
Theorem C7_second_cleanup_repeats_user_left :
  after (run aliceMoves init) = stale3 /\
  value (run aliceMoves init) = inl tt /\
  handleLeave allOpen bob stale3
  = Result (inr TypeError)
      (World (clients stale3) [("lobby", [alice; carol])])
      [(alice, UserLeft "u2" "bob"); (carol, UserLeft "u2" "bob")] /\
  sent (step (says allOpen "" bob leave)
          (after (step (says allOpen "" bob leave) stale3)))
  = [(alice, UserLeft "u2" "bob"); (carol, UserLeft "u2" "bob")] /\
  value (step (Tick allOpen "" (Close bob))
           (after (step (says allOpen "" bob leave) stale3)))
  = inr TypeError.
Proof. repeat (split; [vm_compute; reflexivity|]). vm_compute. reflexivity. Qed.

(** ** A join from a connection that already has a session *)

(** C1: a [join] from a connection that already has a session is not
    ignored.  alice is in the lobby; her second join, naming the den, gives
    her session a new userId and the den as roomId, puts her in the den's
    member set while she stays in the lobby's, and is answered with
    [room-joined] and [user-list]. *)
Theorem C1_second_join_not_ignored :
  Map_get Nat.eqb alice (clients lobby2) = Some (Info.mk "u1" "alice" "lobby") /\
  ~ join_ignored allOpen "u9" alice (join "alice" "den") lobby2 /\
  step (says allOpen "u9" alice (join "alice" "den")) lobby2
  = Result (inl tt)
      (World [(alice, Info.mk "u9" "alice" "den"); (bob, Info.mk "u2" "bob" "lobby");
              (carol, Info.mk "u3" "carol" "den")]
             [("lobby", [alice; bob]); ("den", [carol; alice])])
      [(alice, RoomJoined "den" "u9" [User "u3" "carol"]);
       (carol, UserJoined "u9" "alice");
       (carol, UserList [User "u3" "carol"; User "u9" "alice"]);
       (alice, UserList [User "u3" "carol"; User "u9" "alice"])].
Proof.
  split; [reflexivity|]. split; [|vm_compute; reflexivity].
  unfold join_ignored. intros [_ H]. vm_compute in H. discriminate H.
Qed.

(** The member a second join leaves behind breaks later roster
    computations: after [aliceMoves], which raises nothing, a newcomer's join
    to the lobby raises inside [handleJoin] before anything is sent. *)
Example second_join_leaves_stale_member :
  run aliceMoves init
  = Result (inl tt) stale3 (sent (run aliceMoves init)) /\
  value (handleJoin allOpen "u4" 4 (join "dave" "lobby") stale3) = inr TypeError /\
  sent (handleJoin allOpen "u4" 4 (join "dave" "lobby") stale3) = [].
Proof. split; [|split]; vm_compute; reflexivity. Qed.

Lemma handleLeave_clients (rs : transport) (ws : conn) (w : world) :
  clients (after (handleLeave rs ws w)) = clients w \/
  clients (after (handleLeave rs ws w)) = Map_delete Nat.eqb ws (clients w).
Proof.
  rewrite handleLeave_eq.
  destruct (Map_get Nat.eqb ws (clients w)) as [info|]; [|now left].
  cbv zeta.
  destruct (Map_get String.eqb (Info.roomId info) (rooms w)) as [s|]; [|now right].
  destruct (Set_delete ws s) as [|c rest]; [now right|].
  destruct (roster (clients w) (c :: rest)); [now right | now left].
Qed.

Lemma handleLeave_keeps_sessions (rs : transport) (ws c : conn) (i : Info.t)
    (w : world) :
  Map_get Nat.eqb c (clients (after (handleLeave rs ws w))) = Some i ->
  Map_get Nat.eqb c (clients w) = Some i.
Proof.
  destruct (handleLeave_clients rs ws w) as [-> | ->]; [auto|].
  destruct (Nat.eq_dec c ws) as [->|Hne].
  - rewrite (Map_get_delete_same Nat.eqb). discriminate.
  - rewrite (Map_get_delete_other _ Nat.eqb_eq) by exact Hne. auto.
Qed.

Lemma handleSignal_after (ws : conn) (d : Data.t) (w : world) :
  after (handleSignal ws d w) = w.
Proof.
  rewrite handleSignal_eq.
  destruct (Map_get Nat.eqb ws (clients w)) as [sender|]; [|reflexivity].
  destruct (findTarget _ _ _); reflexivity.
Qed.

(** A [join] is handled the same whether or not the connection already has
    a session: the session is bound to the generated userId and to the
    username and roomId of the message, the connection is in the member set
    of the named room, and no other connection's session changes.  No event
    other than a [join] from the connection itself changes the userId,
    username or roomId of its session: every session found after such an
    event was there, the same, before it. *)
Lemma only_a_join_rebinds_a_session :
  (forall (rs : transport) (uid : string) (ws : conn) (d : Data.t) (w : world),
      Data.type d = "join" ->
      let w' := after (step (says rs uid ws d) w) in
      Map_get Nat.eqb ws (clients w')
        = Some (Info.mk uid (Data.username d) (Data.roomId d)) /\
      In ws (members w' (Data.roomId d)) /\
      (forall c, c <> ws ->
                 Map_get Nat.eqb c (clients w') = Map_get Nat.eqb c (clients w))) /\
  (forall (k : tick) (w : world) (c : conn) (i : Info.t),
      is_join_from c (tick_event k) = false ->
      Map_get Nat.eqb c (clients (after (step k w))) = Some i ->
      Map_get Nat.eqb c (clients w) = Some i).
Proof.
  split.
  - intros rs uid ws d w Hd w'. unfold w'.
    rewrite step_says, (onMessage_join _ _ _ _ _ Hd). unfold caught. cbn [after].
    rewrite handleJoin_after, members_joined. unfold joined. cbn [clients].
    split; [apply (Map_get_set_same _ Nat.eqb_eq)|].
    split; [apply Set_add_In; now left|].
    intros c Hc. apply (Map_get_set_other _ Nat.eqb_eq). exact Hc.
  - intros [rs uid [ws [d|]|ws|ws]] w c i; unfold step;
      cbn [tick_event tick_ready tick_random is_join_from].
    + unfold onMessage. rewrite try_catch_eq. unfold caught. cbn [after].
      destruct (String.eqb (Data.type d) "join").
      { rewrite andb_true_r. intro Hne. apply Nat.eqb_neq in Hne.
        rewrite handleJoin_after. unfold joined. cbn [clients].
        rewrite (Map_get_set_other _ Nat.eqb_eq) by congruence. auto. }
      intros _.
      destruct (String.eqb (Data.type d) "signal").
      { rewrite handleSignal_after. auto. }
      destruct (String.eqb (Data.type d) "leave").
      { apply handleLeave_keeps_sessions. }
      auto.
    + auto.
    + intros _. apply handleLeave_keeps_sessions.
    + auto.
Qed.

Example only_a_join_rebinds_a_session_at_lobby :
  Map_get Nat.eqb alice
    (clients (after (step (says allOpen "u9" alice (join "alice" "den")) lobby2)))
  = Some (Info.mk "u9" "alice" "den") /\
  Map_get Nat.eqb bob
    (clients (after (step (says allOpen "" alice (signal "u2" "offer")) lobby2)))
  = Some (Info.mk "u2" "bob" "lobby") /\
  Map_get Nat.eqb bob (clients lobby2) = Some (Info.mk "u2" "bob" "lobby").
Proof.
  destruct only_a_join_rebinds_a_session as [Hjoin Hother].
  split.
  - destruct (Hjoin allOpen "u9" alice (join "alice" "den") lobby2 eq_refl)
      as [H _]. exact H.
  - assert (H : Map_get Nat.eqb bob
                  (clients (after (step (says allOpen "" alice (signal "u2" "offer"))
                                     lobby2)))
                = Some (Info.mk "u2" "bob" "lobby")) by (vm_compute; reflexivity).
    split; [exact H|].
    exact (Hother (says allOpen "" alice (signal "u2" "offer")) lobby2 bob
             (Info.mk "u2" "bob" "lobby") eq_refl H).
Qed.

(** ** The data-model invariant and where it holds *)

Lemma wf_init : wf init.
Proof.
  split; [|split].
  - intros r s c H. discriminate.
  - intros c i H. discriminate.
  - intros r s H. discriminate.
Qed.

Lemma wf_members_bound (w : world) (r : string) (c : conn) :
  wf w -> In c (members w r) -> bound w c.
Proof.
  intros [H _] Hc. unfold members in Hc.
  destruct (Map_get String.eqb r (rooms w)) as [s|] eqn:E; [|destruct Hc].
  destruct (H r s c E Hc) as [i [Hi _]]. exists i. exact Hi.
Qed.

Lemma wf_rest_bound (w : world) (ws : conn) :
  wf w ->
  forall info s,
    Map_get Nat.eqb ws (clients w) = Some info ->
    Map_get String.eqb (Info.roomId info) (rooms w) = Some s ->
    forall c, In c (Set_delete ws s) -> bound w c.
Proof.
  intros Hw info s _ Hs c Hc. apply Set_delete_In in Hc. destruct Hc as [Hc _].
  apply (wf_members_bound w (Info.roomId info)); [exact Hw|].
  unfold members. rewrite Hs. exact Hc.
Qed.

Lemma members_other (r r' : string) (cl : list (conn * Info.t)) (s : list conn)
    (w : world) :
  r' <> r ->
  members (World cl (Map_set String.eqb r s (rooms w))) r' = members w r'.
Proof.
  intro H. unfold members. cbn [rooms].
  rewrite (Map_get_set_other _ String.eqb_eq) by exact H. reflexivity.
Qed.

Lemma wf_joined (uid : string) (ws : conn) (d : Data.t) (w : world) :
  wf w -> Map_get Nat.eqb ws (clients w) = None -> wf (joined uid ws d w).
Proof.
  intros [H1 [H2 H3]] Hnone.
  set (r := Data.roomId d). set (me := Info.mk uid (Data.username d) r).
  assert (Hme : Map_get Nat.eqb ws (clients (joined uid ws d w)) = Some me)
    by apply (Map_get_set_same _ Nat.eqb_eq).
  assert (Hkeep : forall c i, Map_get Nat.eqb c (clients w) = Some i ->
                    Map_get Nat.eqb c (clients (joined uid ws d w)) = Some i).
  { intros c i Hc. unfold joined. cbn [clients].
    rewrite (Map_get_set_other _ Nat.eqb_eq); [exact Hc|]. congruence. }
  split; [|split].
  - intros r' s' c Hr Hc. unfold joined in Hr. cbn [rooms] in Hr. fold r in Hr.
    destruct (String.eqb_spec r' r) as [->|Hne].
    + rewrite (Map_get_set_same _ String.eqb_eq) in Hr. inversion Hr. subst s'.
      apply Set_add_In in Hc. destruct Hc as [->|Hc].
      * exists me. split; [exact Hme | reflexivity].
      * unfold members in Hc.
        destruct (Map_get String.eqb r (rooms w)) as [s|] eqn:E; [|destruct Hc].
        destruct (H1 r s c E Hc) as [i [Hi Hr']]. exists i. split; auto.
    + rewrite (Map_get_set_other _ String.eqb_eq) in Hr by exact Hne.
      destruct (H1 r' s' c Hr Hc) as [i [Hi Hr']]. exists i. split; auto.
  - intros c i Hc. destruct (Nat.eq_dec c ws) as [->|Hne].
    + rewrite Hme in Hc. inversion Hc. subst i. cbn [Info.roomId]. unfold r.
      rewrite members_joined. apply Set_add_In. now left.
    + unfold joined in Hc. cbn [clients] in Hc.
      rewrite (Map_get_set_other _ Nat.eqb_eq) in Hc by exact Hne.
      pose proof (H2 c i Hc) as Hin.
      destruct (String.eqb_spec (Info.roomId i) r) as [E|Hr].
      * rewrite E in *. unfold r. rewrite members_joined.
        apply Set_add_In. right. exact Hin.
      * unfold joined. rewrite members_other by exact Hr. exact Hin.
  - apply no_empty_room_joined. exact H3.
Qed.

Lemma wf_left (rs : transport) (ws : conn) (w : world) :
  wf w ->
  wf (after (handleLeave rs ws w)) /\ value (handleLeave rs ws w) = inl tt.
Proof.
  intro Hw. split; [|apply handleLeave_completes, wf_rest_bound; exact Hw].
  pose proof (handleLeave_completes rs ws w (wf_rest_bound w ws Hw)) as Hv.
  pose proof (handleLeave_no_empty_room rs ws w (proj2 (proj2 Hw))) as Hne.
  destruct Hw as [H1 [H2 H3]].
  rewrite handleLeave_eq in *.
  destruct (Map_get Nat.eqb ws (clients w)) as [info|] eqn:Ei;
    [|split; [|split]; assumption].
  cbv zeta in *. pose proof (H2 ws info Ei) as Hin. unfold members in Hin.
  destruct (Map_get String.eqb (Info.roomId info) (rooms w)) as [s|] eqn:Es;
    [|destruct Hin].
  set (r := Info.roomId info) in *.
  assert (Hdel : forall c i,
             Map_get Nat.eqb c (Map_delete Nat.eqb ws (clients w)) = Some i ->
             c <> ws /\ Map_get Nat.eqb c (clients w) = Some i).
  { intros c i Hc. destruct (Nat.eq_dec c ws) as [->|Hn].
    - rewrite (Map_get_delete_same Nat.eqb) in Hc. discriminate.
    - rewrite (Map_get_delete_other _ Nat.eqb_eq) in Hc by exact Hn. auto. }
  assert (Hother : forall r' s' c, r' <> r ->
             Map_get String.eqb r' (rooms w) = Some s' -> In c s' ->
             exists i, Map_get Nat.eqb c (Map_delete Nat.eqb ws (clients w)) = Some i
                       /\ Info.roomId i = r').
  { intros r' s' c Hr Hs' Hc. destruct (H1 r' s' c Hs' Hc) as [i [Hi Hri]].
    exists i. split; [|exact Hri].
    rewrite (Map_get_delete_other _ Nat.eqb_eq); [exact Hi|].
    intro E. subst c. rewrite Ei in Hi. inversion Hi. subst i.
    apply Hr. symmetry. exact Hri. }
  assert (Hsame : forall c, In c (Set_delete ws s) ->
             exists i, Map_get Nat.eqb c (Map_delete Nat.eqb ws (clients w)) = Some i
                       /\ Info.roomId i = r).
  { intros c Hc. apply Set_delete_In in Hc. destruct Hc as [Hc Hn].
    destruct (H1 r s c Es Hc) as [i [Hi Hri]]. exists i. split; [|exact Hri].
    rewrite (Map_get_delete_other _ Nat.eqb_eq) by exact Hn. exact Hi. }
  destruct (Set_delete ws s) as [|c0 rest] eqn:Er.
  - cbn [after] in *. split; [|split; [|exact Hne]].
    + intros r' s' c Hr Hc. unfold removeClient, dropRoom, setRoom in Hr |- *.
      cbn [rooms clients] in Hr |- *.
      destruct (String.eqb_spec r' r) as [->|Hn].
      * rewrite (Map_get_delete_same String.eqb) in Hr. discriminate.
      * rewrite (Map_get_delete_other _ String.eqb_eq) in Hr by exact Hn.
        rewrite (Map_get_set_other _ String.eqb_eq) in Hr by exact Hn.
        exact (Hother r' s' c Hn Hr Hc).
    + intros c i Hc. unfold removeClient, dropRoom, setRoom in Hc |- *.
      cbn [clients] in Hc. destruct (Hdel c i Hc) as [Hn Hi].
      pose proof (H2 c i Hi) as Hm. unfold members in Hm |- *. cbn [rooms].
      destruct (String.eqb_spec (Info.roomId i) r) as [E|Hr].
      * exfalso. rewrite E, Es in Hm.
        assert (In c (Set_delete ws s)) by (apply Set_delete_In; auto).
        rewrite Er in H. exact H.
      * rewrite (Map_get_delete_other _ String.eqb_eq) by exact Hr.
        rewrite (Map_get_set_other _ String.eqb_eq) by exact Hr. exact Hm.
  - destruct (roster (clients w) (c0 :: rest)) as [us|]; [|discriminate].
    cbn [after] in *. split; [|split; [|exact Hne]].
    + intros r' s' c Hr Hc. unfold removeClient, setRoom in Hr |- *.
      cbn [rooms clients] in Hr |- *.
      destruct (String.eqb_spec r' r) as [->|Hn].
      * rewrite (Map_get_set_same _ String.eqb_eq) in Hr. inversion Hr. subst s'.
        exact (Hsame c Hc).
      * rewrite (Map_get_set_other _ String.eqb_eq) in Hr by exact Hn.
        exact (Hother r' s' c Hn Hr Hc).
    + intros c i Hc. unfold removeClient, setRoom in Hc |- *.
      cbn [clients] in Hc. destruct (Hdel c i Hc) as [Hn Hi].
      pose proof (H2 c i Hi) as Hm. unfold members in Hm |- *. cbn [rooms].
      destruct (String.eqb_spec (Info.roomId i) r) as [E|Hr].
      * rewrite E, Es in Hm. rewrite E.
        rewrite (Map_get_set_same _ String.eqb_eq). rewrite <- Er.
        apply Set_delete_In. auto.
      * rewrite (Map_get_set_other _ String.eqb_eq) by exact Hr. exact Hm.
Qed.

Lemma wf_step (k : tick) (w : world) :
  wf w -> conforming k w ->
  wf (after (step k w)) /\ value (step k w) = inl tt.
Proof.
  intros Hw Hc. destruct k as [rs uid [ws [d|]|ws|ws]]; unfold step;
    cbn [tick_event tick_ready tick_random].
  - unfold onMessage. rewrite try_catch_eq. unfold caught. cbn [after value].
    split; [|reflexivity].
    destruct (String.eqb_spec (Data.type d) "join") as [Ej|_].
    { rewrite handleJoin_after. apply wf_joined; [exact Hw|].
      exact (Hc ws d eq_refl Ej). }
    destruct (String.eqb (Data.type d) "signal").
    { rewrite handleSignal_after. exact Hw. }
    destruct (String.eqb (Data.type d) "leave").
    { apply wf_left. exact Hw. }
    exact Hw.
  - split; [exact Hw | reflexivity].
  - apply wf_left. exact Hw.
  - split; [exact Hw | reflexivity].
Qed.

(** Along every run in which no connection joins twice without leaving in
    between, the invariant holds and no exception escapes a handler. *)
Lemma wf_run (t : list tick) (w : world) :
  wf w -> conforming_run t w ->
  wf (after (run t w)) /\ value (run t w) = inl tt.
Proof.
  revert w. induction t as [|k t IH]; intros w Hw Hc.
  - split; [exact Hw | reflexivity].
  - destruct Hc as [Hk Ht]. destruct (wf_step k w Hw Hk) as [Hw' Hv].
    destruct (IH _ Hw' Ht) as [Hw'' Hv'].
    rewrite run_cons_after, Hv. split; [exact Hw''|].
    simpl. unfold bind. rewrite Hv. cbn [value]. exact Hv'.
Qed.

(** ** The address shown at start-up *)

Lemma scanInterface_None (l : list Iface.t) :
  scanInterface l = None <-> (forall i, In i l -> ~ external i).
Proof.
  induction l as [|i l IH]; simpl.
  - split; [intros _ i [] | reflexivity].
  - destruct (String.eqb (Iface.family i) "IPv4" && negb (Iface.internal i)) eqn:E.
    + split; [discriminate|]. intro H. exfalso. apply (H i); [now left|].
      apply andb_true_iff in E. destruct E as [E1 E2].
      apply String.eqb_eq in E1. apply negb_true_iff in E2. split; assumption.
    + rewrite IH. split.
      * intros H i' [<-|Hi']; [|exact (H i' Hi')].
        intros [H1 H2]. rewrite H1, H2 in E. discriminate.
      * intros H i' Hi'. apply H. now right.
Qed.

Lemma scanInterface_first (l1 l2 : list Iface.t) (i : Iface.t) :
  (forall i', In i' l1 -> ~ external i') -> external i ->
  scanInterface (l1 ++ i :: l2) = Some (Iface.address i).
Proof.
  intros H1 [Hf Hi]. induction l1 as [|i' l1 IH]; simpl.
  - rewrite Hf, Hi. reflexivity.
  - destruct (String.eqb (Iface.family i') "IPv4" && negb (Iface.internal i')) eqn:E.
    + exfalso. apply (H1 i'); [now left|].
      apply andb_true_iff in E. destruct E as [E1 E2].
      apply String.eqb_eq in E1. apply negb_true_iff in E2. split; assumption.
    + apply IH. intros i0 H0. apply H1. now right.
Qed.

Lemma scanInterface_Some (l : list Iface.t) (a : string) :
  scanInterface l = Some a -> exists i, In i l /\ external i /\ Iface.address i = a.
Proof.
  induction l as [|i l IH]; simpl; [discriminate|].
  destruct (String.eqb (Iface.family i) "IPv4" && negb (Iface.internal i)) eqn:E.
  - intro H. inversion H. exists i. split; [now left|]. split; [|reflexivity].
    apply andb_true_iff in E. destruct E as [E1 E2].
    apply String.eqb_eq in E1. apply negb_true_iff in E2. split; assumption.
  - intro H. destruct (IH H) as [i' [Hi' Hx]]. exists i'. split; [now right | exact Hx].
Qed.

(** X1: [getLocalIpAddress] returns the address of the first entry, in the order
    of the interface names and then of each interface's entries, whose family
    is IPv4 and which is not internal; it falls back to 'localhost' when
    there is no such entry; and whatever it returns is that fallback or the
    address of such an entry, never the address of a loopback or IPv6
    entry. *)
Theorem getLocalIpAddress_first_external :
  forall interfaces : list (string * list Iface.t),
    ((forall name l i, In (name, l) interfaces -> In i l -> ~ external i) ->
     getLocalIpAddress interfaces = "localhost") /\
    (forall before name l1 i l2 rest,
        interfaces = before ++ (name, l1 ++ i :: l2) :: rest ->
        (forall name' l' i', In (name', l') before -> In i' l' -> ~ external i') ->
        (forall i', In i' l1 -> ~ external i') ->
        external i ->
        getLocalIpAddress interfaces = Iface.address i) /\
    (getLocalIpAddress interfaces = "localhost" \/
     exists name l i, In (name, l) interfaces /\ In i l /\ external i /\
                      getLocalIpAddress interfaces = Iface.address i).
Proof.
  intro interfaces. split; [|split].
  - induction interfaces as [|[name l] rest IH]; intro H; simpl; [reflexivity|].
    assert (Hl : scanInterface l = None).
    { apply scanInterface_None. intros i Hi. apply (H name l i); [now left | exact Hi]. }
    rewrite Hl. apply IH. intros name' l' i' Hin Hi'.
    apply (H name' l' i'); [now right | exact Hi'].
  - intros before name l1 i l2 rest -> Hb H1 Hx.
    induction before as [|[name' l'] before IH]; simpl.
    + rewrite (scanInterface_first l1 l2 i H1 Hx). reflexivity.
    + assert (Hl : scanInterface l' = None).
      { apply scanInterface_None. intros i' Hi'.
        apply (Hb name' l' i'); [now left | exact Hi']. }
      rewrite Hl. apply IH. intros n0 l0 i0 Hin Hi0.
      apply (Hb n0 l0 i0); [now right | exact Hi0].
  - induction interfaces as [|[name l] rest IH]; simpl; [now left|].
    destruct (scanInterface l) as [a|] eqn:E.
    + right. destruct (scanInterface_Some l a E) as [i [Hi [Hx Ha]]].
      exists name, l, i. split; [now left|]. split; [exact Hi|].
      split; [exact Hx | symmetry; exact Ha].
    + destruct IH as [IH|[name' [l' [i' [Hin [Hi' [Hx Ha]]]]]]]; [now left|].
      right. exists name', l', i'. split; [now right|]. split; [exact Hi'|].
      split; [exact Hx | exact Ha].
Qed.

Lemma getLocalIpAddress_first_external_witness :
  getLocalIpAddress [("docker0", []); ("lo", [Iface.mk "IPv4" true "127.0.0.1"])]
  = "localhost" /\
  getLocalIpAddress
    [("lo", [Iface.mk "IPv4" true "127.0.0.1"; Iface.mk "IPv6" true "::1"]);
     ("eth0", [Iface.mk "IPv6" false "fe80::1"; Iface.mk "IPv4" false "192.168.1.5";
               Iface.mk "IPv4" false "10.0.0.7"])]
  = "192.168.1.5".
Proof.
  split.
  - apply (proj1 (getLocalIpAddress_first_external
                    [("docker0", []); ("lo", [Iface.mk "IPv4" true "127.0.0.1"])])).
    intros name l i [H|[H|[]]] Hi; inversion H; subst; [destruct Hi|].
    destruct Hi as [<-|[]]. intros [_ H']. discriminate H'.
  - apply (proj1 (proj2 (getLocalIpAddress_first_external _))
             [("lo", [Iface.mk "IPv4" true "127.0.0.1"; Iface.mk "IPv6" true "::1"])]
             "eth0" [Iface.mk "IPv6" false "fe80::1"]
             (Iface.mk "IPv4" false "192.168.1.5")
             [Iface.mk "IPv4" false "10.0.0.7"] []).
    + reflexivity.
    + intros name l i [H|[]] Hi. inversion H. subst.
      destruct Hi as [<-|[<-|[]]]; intros [H1 H2]; discriminate.
    + intros i [<-|[]] [H1 _]. discriminate H1.
    + split; reflexivity.
Defined.

(** ** Generated identifiers *)

Lemma substring_part (n m : nat) (s : string) :
  exists pre post : string,
    s = (pre ++ String.substring n m s ++ post)%string /\
    String.length pre = Nat.min n (String.length s) /\
    String.length (String.substring n m s) = Nat.min m (String.length s - n).
Proof.
  revert n m. induction s as [|c s IH]; intros n m.
  - exists "", "". destruct n, m; simpl; auto.
  - destruct n as [|n].
    + destruct m as [|m].
      * exists "", (String c s). simpl. auto.
      * destruct (IH 0 m) as [pre [post [H1 [H2 H3]]]].
        destruct pre; simpl in H2; [|discriminate].
        exists "", post. simpl in *. rewrite Nat.sub_0_r in H3.
        rewrite <- H1, H3. auto.
    + destruct (IH n m) as [pre [post [H1 [H2 H3]]]].
      exists (String c pre), post. simpl. rewrite <- H1, H2, H3. auto.
Qed.

(** X2: [generateUserId] returns a contiguous piece of the base-36 text it is
    given, starting after the first two characters ("0."): never more than 9
    characters, exactly 9 when at least 11 are available, and the empty
    string when the text has no more than two characters (as for "0"). *)
Theorem generateUserId_length :
  forall random36 : string,
    String.length (generateUserId random36) <= 9 /\
    (11 <= String.length random36 -> String.length (generateUserId random36) = 9) /\
    (String.length random36 <= 2 -> generateUserId random36 = "") /\
    (exists pre post : string,
        random36 = (pre ++ generateUserId random36 ++ post)%string /\
        String.length pre = Nat.min 2 (String.length random36)).
Proof.
  intro s. unfold generateUserId.
  destruct (substring_part 2 9 s) as [pre [post [H1 [H2 H3]]]].
  split; [rewrite H3; apply Nat.le_min_l|].
  split; [intro H; rewrite H3; apply Nat.min_l; apply Nat.le_add_le_sub_r; exact H|].
  split.
  - intro H. assert (H0 : String.length s - 2 = 0) by (apply Nat.sub_0_le; exact H).
    rewrite H0, Nat.min_0_r in H3.
    destruct (String.substring 2 9 s); [reflexivity | discriminate H3].
  - exists pre, post. split; assumption.
Qed.

Lemma generateUserId_length_witness :
  String.length (generateUserId "0.4fzyo82mvyr") = 9 /\ generateUserId "0" = "".
Proof.
  destruct (generateUserId_length "0.4fzyo82mvyr") as [_ [H _]].
  destruct (generateUserId_length "0") as [_ [_ [H' _]]].
  split; [apply H | apply H']; simpl; lia.
Defined.

(** ** Connections without a session *)

(** X3: until it joins, a connection cannot make the relay do anything: every
    event on a connection that has no session, other than a [join] message
    (a signal, a leave, a message of unknown type, a malformed frame, its
    close, an error), sends nothing, raises nothing and leaves the registry
    and the directory as they are. *)
Theorem unidentified_connection_is_inert :
  forall (rs : transport) (uid : string) (e : event) (w : world),
    Map_get Nat.eqb (event_conn e) (clients w) = None ->
    is_join_from (event_conn e) e = false ->
    step (Tick rs uid e) w = Result (inl tt) w [].
Proof.
  intros rs uid [ws [d|]|ws|ws] w Hnone Hj; unfold step;
    cbn [tick_event tick_ready tick_random event_conn is_join_from] in *.
  - rewrite Nat.eqb_refl in Hj. cbn [andb] in Hj.
    unfold onMessage. rewrite try_catch_eq, Hj.
    destruct (String.eqb (Data.type d) "signal").
    { rewrite handleSignal_eq, Hnone. reflexivity. }
    destruct (String.eqb (Data.type d) "leave").
    { rewrite (handleLeave_unbound rs ws w Hnone). reflexivity. }
    reflexivity.
  - reflexivity.
  - exact (handleLeave_unbound rs ws w Hnone).
  - reflexivity.
Qed.

Lemma unidentified_connection_is_inert_witness :
  step (says allOpen "" 9 (signal "u1" "offer")) lobby2 = Result (inl tt) lobby2 [] /\
  step (says allOpen "" 9 (Data.mk "ping" "" "" "" "")) lobby2
  = Result (inl tt) lobby2 [].
Proof.
  split.
  - exact (unidentified_connection_is_inert allOpen ""
             (Message 9 (Some (signal "u1" "offer"))) lobby2 eq_refl eq_refl).
  - exact (unidentified_connection_is_inert allOpen ""
             (Message 9 (Some (Data.mk "ping" "" "" "" ""))) lobby2 eq_refl eq_refl).
Defined.

(** ** Broadcasts *)

(** X4: [broadcastToRoom] changes no state and never raises; its recipients are
    exactly the members of the room whose transport is open, the excluded
    connection apart, each of them getting the message given; for a room
    that is not in the directory nothing is sent. *)
Theorem broadcastToRoom_recipients :
  forall (rs : transport) (r : string) (message : serverMsg) (excludeWs : option conn)
         (w : world),
    let res := broadcastToRoom rs r message excludeWs w in
    value res = inl tt /\
    after res = w /\
    (forall c m, In (c, m) (sent res) <->
       m = message /\ In c (members w r) /\ rs c = OPEN /\ excludeWs <> Some c) /\
    (Map_has String.eqb r (rooms w) = false -> sent res = []).
Proof.
  intros rs r message excludeWs w res. unfold res. rewrite broadcastToRoom_eq.
  cbn [value after sent]. split; [reflexivity|]. split; [reflexivity|]. split.
  - intros c m. rewrite deliver_In. unfold recipient. split.
    + intros [Hin [Hr ->]]. apply andb_true_iff in Hr. destruct Hr as [Hx Ho].
      split; [reflexivity|]. split; [exact Hin|]. split.
      * destruct (rs c); simpl in Ho; congruence.
      * intro E. subst excludeWs. rewrite Nat.eqb_refl in Hx. discriminate.
    + intros [-> [Hin [Ho Hx]]]. split; [exact Hin|]. split; [|reflexivity].
      rewrite Ho. simpl. rewrite andb_true_r.
      destruct excludeWs as [ws|]; [|reflexivity].
      destruct (Nat.eqb_spec c ws) as [->|Hne]; [|reflexivity].
      exfalso. apply Hx. reflexivity.
  - unfold Map_has, members.
    destruct (Map_get String.eqb r (rooms w)); [discriminate | reflexivity].
Qed.

Lemma broadcastToRoom_recipients_witness :
  sent (broadcastToRoom allOpen "attic" (UserJoined "u9" "dave") None lobby2) = [].
Proof.
  destruct (broadcastToRoom_recipients allOpen "attic" (UserJoined "u9" "dave") None
              lobby2) as [_ [_ [_ H]]].
  apply H. reflexivity.
Defined.

(** X5: [updateUserList] changes no state.  When every member of the room has a
    session it sends the open members one [user-list] whose entries are the
    members' userId and username, one entry per member in the order of the
    member set; when some member has none it raises before anything is sent;
    for a room that is not in the directory it does nothing. *)
Theorem updateUserList_roster :
  forall (rs : transport) (r : string) (w : world),
    let res := updateUserList rs r w in
    after res = w /\
    ((forall c, In c (members w r) -> bound w c) ->
     exists users,
       value res = inl tt /\
       sent res = deliver rs None (UserList users) (members w r) /\
       Forall2 (fun c u => exists i, Map_get Nat.eqb c (clients w) = Some i /\
                                     u = User (Info.userId i) (Info.username i))
               (members w r) users) /\
    ((exists c, In c (members w r) /\ Map_get Nat.eqb c (clients w) = None) ->
     value res = inr TypeError /\ sent res = []) /\
    (Map_has String.eqb r (rooms w) = false -> value res = inl tt /\ sent res = []).
Proof.
  intros rs r w res. unfold res. rewrite updateUserList_eq.
  assert (Hafter : after (match roster (clients w) (members w r) with
                          | Some us => Result (inl tt) w
                                         (deliver rs None (UserList us) (members w r))
                          | None => Result (inr TypeError) w []
                          end) = w)
    by (destruct (roster (clients w) (members w r)); reflexivity).
  split; [exact Hafter|]. split; [|split].
  - intro Hb. destruct (roster_bound w (members w r) Hb) as [users Hu].
    rewrite Hu. exists users. split; [reflexivity|]. split; [reflexivity|].
    apply roster_entries. exact Hu.
  - intros [c [Hin Hnone]].
    destruct (roster (clients w) (members w r)) as [us|] eqn:E; [|split; reflexivity].
    exfalso. pose proof (roster_entries _ _ _ E) as HF.
    clear E Hafter. induction HF as [|c' u l us' [i [Hi _]] HF IH]; [destruct Hin|].
    destruct Hin as [->|Hin]; [congruence | exact (IH Hin)].
  - intro Hno. unfold Map_has in Hno. unfold members.
    destruct (Map_get String.eqb r (rooms w)); [discriminate|].
    split; reflexivity.
Qed.

Lemma updateUserList_roster_witness :
  sent (updateUserList allOpen "lobby" lobby2)
  = [(alice, UserList [User "u1" "alice"; User "u2" "bob"]);
     (bob, UserList [User "u1" "alice"; User "u2" "bob"])] /\
  value (updateUserList allOpen "lobby" stale3) = inr TypeError /\
  sent (updateUserList allOpen "attic" lobby2) = [].
Proof.
  destruct (updateUserList_roster allOpen "lobby" lobby2) as [_ [H1 _]].
  destruct (updateUserList_roster allOpen "lobby" stale3) as [_ [_ [H2 _]]].
  destruct (updateUserList_roster allOpen "attic" lobby2) as [_ [_ [_ H3]]].
  split; [|split].
  - destruct H1 as [users [_ [Hs HF]]].
    + intros c [<-|[<-|[]]]; eexists; reflexivity.
    + rewrite Hs. clear Hs.
      assert (users = [User "u1" "alice"; User "u2" "bob"]).
      { inversion HF as [|c1 u1 l1 us1 [i1 [Hi1 Hu1]] HF1]; subst.
        inversion HF1 as [|c2 u2 l2 us2 [i2 [Hi2 Hu2]] HF2]; subst.
        inversion HF2; subst.
        vm_compute in Hi1, Hi2. inversion Hi1. inversion Hi2. reflexivity. }
      subst users. reflexivity.
  - apply H2. exists alice. split; [now left | reflexivity].
  - apply H3. reflexivity.
Defined.

(** ** What an event can reach *)

Lemma handleLeave_other_rooms (rs : transport) (ws : conn) (w : world) (r : string) :
  option_map Info.roomId (Map_get Nat.eqb ws (clients w)) <> Some r ->
  Map_get String.eqb r (rooms (after (handleLeave rs ws w)))
  = Map_get String.eqb r (rooms w).
Proof.
  intro Hr. rewrite handleLeave_eq.
  destruct (Map_get Nat.eqb ws (clients w)) as [info|]; [|reflexivity].
  cbv zeta. assert (Hne : r <> Info.roomId info) by (intro E; apply Hr; now subst).
  destruct (Map_get String.eqb (Info.roomId info) (rooms w)) as [s|]; [|reflexivity].
  destruct (Set_delete ws s) as [|c rest].
  - unfold removeClient, dropRoom, setRoom. cbn [after rooms].
    rewrite (Map_get_delete_other _ String.eqb_eq) by exact Hne.
    apply (Map_get_set_other _ String.eqb_eq). exact Hne.
  - destruct (roster (clients w) (c :: rest)); unfold removeClient, setRoom;
      cbn [after rooms]; apply (Map_get_set_other _ String.eqb_eq); exact Hne.
Qed.

Lemma handleLeave_other_sessions (rs : transport) (ws c : conn) (w : world) :
  c <> ws ->
  Map_get Nat.eqb c (clients (after (handleLeave rs ws w)))
  = Map_get Nat.eqb c (clients w).
Proof.
  intro Hne. destruct (handleLeave_clients rs ws w) as [-> | ->]; [reflexivity|].
  apply (Map_get_delete_other _ Nat.eqb_eq). exact Hne.
Qed.

(** X6: an event writes at most one room and at most one session: the member
    set of every room other than the one a join names, or the one the
    session of the leaving or closing connection names, is as it was, and so
    is the session of every connection other than the one the event is on. *)
Theorem event_writes_one_room_one_session :
  forall (k : tick) (w : world),
    (forall r, touched (tick_event k) w <> Some r ->
       Map_get String.eqb r (rooms (after (step k w)))
       = Map_get String.eqb r (rooms w)) /\
    (forall c, c <> event_conn (tick_event k) ->
       Map_get Nat.eqb c (clients (after (step k w)))
       = Map_get Nat.eqb c (clients w)).
Proof.
  intros [rs uid [ws [d|]|ws|ws]] w; unfold step;
    cbn [tick_event tick_ready tick_random event_conn touched].
  - unfold onMessage. rewrite try_catch_eq. unfold caught. cbn [after].
    destruct (String.eqb (Data.type d) "join").
    { rewrite handleJoin_after. unfold joined. cbn [rooms clients]. split.
      - intros r Hr. apply (Map_get_set_other _ String.eqb_eq). congruence.
      - intros c Hc. apply (Map_get_set_other _ Nat.eqb_eq). exact Hc. }
    destruct (String.eqb (Data.type d) "signal").
    { rewrite handleSignal_after. split; reflexivity. }
    destruct (String.eqb (Data.type d) "leave").
    { split.
      - intros r Hr. apply handleLeave_other_rooms. exact Hr.
      - intros c Hc. apply handleLeave_other_sessions. exact Hc. }
    split; reflexivity.
  - split; reflexivity.
  - split.
    + intros r Hr. apply handleLeave_other_rooms. exact Hr.
    + intros c Hc. apply handleLeave_other_sessions. exact Hc.
  - split; reflexivity.
Qed.

Lemma event_writes_one_room_one_session_witness :
  Map_get String.eqb "den" (rooms (after (step (Tick allOpen "" (Close alice)) lobby2)))
  = Some [carol] /\
  Map_get Nat.eqb bob (clients (after (step (Tick allOpen "" (Close alice)) lobby2)))
  = Some (Info.mk "u2" "bob" "lobby").
Proof.
  destruct (event_writes_one_room_one_session (Tick allOpen "" (Close alice)) lobby2)
    as [H1 H2].
  split.
  - rewrite (H1 "den"); [reflexivity | discriminate].
  - rewrite (H2 bob); [reflexivity | discriminate].
Defined.



(** ** No duplicates *)

Section KeysFacts.
Context {K V : Type} (eqb : K -> K -> bool).
Hypothesis eqb_eq : forall a b, eqb a b = true <-> a = b.

Lemma Map_set_keys (k x : K) (v : V) (m : list (K * V)) :
  In x (map fst (Map_set eqb k v m)) -> x = k \/ In x (map fst m).
Proof.
  induction m as [|[k' v'] m IH]; simpl.
  - intros [H|[]]. now left.
  - destruct (eqb k k'); simpl.
    + intros [H|H]; right; [now left | now right].
    + intros [H|H]; [right; now left|].
      destruct (IH H) as [E|E]; [now left | right; now right].
Qed.

Lemma Map_set_NoDup (k : K) (v : V) (m : list (K * V)) :
  NoDup (map fst m) -> NoDup (map fst (Map_set eqb k v m)).
Proof.
  induction m as [|[k' v'] m IH]; simpl; intro H.
  - constructor; [intros [] | constructor].
  - inversion H as [|? ? Hk Hm]. subst. destruct (eqb k k') eqn:E; simpl.
    + constructor; assumption.
    + constructor; [|exact (IH Hm)].
      intro Hin. destruct (Map_set_keys _ _ _ _ Hin) as [E'|E']; [|contradiction].
      subst k'. rewrite (eqb_refl' _ eqb_eq) in E. discriminate.
Qed.

Lemma Map_delete_NoDup (k : K) (m : list (K * V)) :
  NoDup (map fst m) -> NoDup (map fst (Map_delete eqb k m)).
Proof.
  unfold Map_delete. induction m as [|[k' v'] m IH]; simpl; intro H; [exact H|].
  inversion H as [|? ? Hk Hm]. subst.
  destruct (negb (eqb k k')); simpl; [|exact (IH Hm)].
  constructor; [|exact (IH Hm)].
  intro Hin. apply Hk. apply in_map_iff in Hin. destruct Hin as [e [He Hin]].
  apply filter_In in Hin. apply in_map_iff. exists e. tauto.
Qed.

Lemma Map_set_absent (k : K) (v : V) (m : list (K * V)) :
  Map_get eqb k m = None -> Map_set eqb k v m = m ++ [(k, v)].
Proof.
  induction m as [|[k' v'] m IH]; simpl; [reflexivity|].
  destruct (eqb k k'); [discriminate|]. intro H. rewrite (IH H). reflexivity.
Qed.


End KeysFacts.

Lemma Set_add_NoDup (x : conn) (s : list conn) : NoDup s -> NoDup (Set_add x s).
Proof.
  intro H. unfold Set_add. destruct (Set_has x s) eqn:E; [exact H|].
  apply NoDup_app; [exact H | constructor; [intros [] | constructor] |].
  intros y Hy [<-|[]]. apply Set_has_In in Hy. congruence.
Qed.

Lemma Set_delete_NoDup (x : conn) (s : list conn) : NoDup s -> NoDup (Set_delete x s).
Proof. apply NoDup_filter. Qed.

Lemma distinct_setRoom (r : string) (s : list conn) (w : world) :
  distinct w -> NoDup s -> distinct (setRoom r s w).
Proof.
  intros [H1 [H2 H3]] Hs. split; [exact H1|]. split.
  - apply (Map_set_NoDup _ String.eqb_eq). exact H2.
  - intros r' s'. unfold setRoom. cbn [rooms].
    destruct (String.eqb_spec r' r) as [->|Hne].
    + rewrite (Map_get_set_same _ String.eqb_eq). intro H. inversion H. now subst.
    + rewrite (Map_get_set_other _ String.eqb_eq) by exact Hne. apply H3.
Qed.

Lemma distinct_dropRoom (r : string) (w : world) :
  distinct w -> distinct (dropRoom r w).
Proof.
  intros [H1 [H2 H3]]. split; [exact H1|]. split.
  - apply Map_delete_NoDup. exact H2.
  - intros r' s'. unfold dropRoom. cbn [rooms].
    destruct (String.eqb_spec r' r) as [->|Hne].
    + rewrite (Map_get_delete_same String.eqb). discriminate.
    + rewrite (Map_get_delete_other _ String.eqb_eq) by exact Hne. apply H3.
Qed.

Lemma distinct_removeClient (ws : conn) (w : world) :
  distinct w -> distinct (removeClient ws w).
Proof.
  intros [H1 [H2 H3]]. split; [|split; assumption].
  apply Map_delete_NoDup. exact H1.
Qed.

Lemma distinct_members (w : world) (r : string) : distinct w -> NoDup (members w r).
Proof.
  intros [_ [_ H]]. unfold members.
  destruct (Map_get String.eqb r (rooms w)) as [s|] eqn:E; [exact (H r s E)|].
  constructor.
Qed.

Lemma distinct_joined (uid : string) (ws : conn) (d : Data.t) (w : world) :
  distinct w -> distinct (joined uid ws d w).
Proof.
  intro Hw.
  assert (H0 : distinct (World (Map_set Nat.eqb ws
                (Info.mk uid (Data.username d) (Data.roomId d)) (clients w)) (rooms w))).
  { destruct Hw as [H1 [H2 H3]]. split; [|split; assumption].
    apply (Map_set_NoDup _ Nat.eqb_eq). exact H1. }
  apply (distinct_setRoom (Data.roomId d) (Set_add ws (members w (Data.roomId d))) _ H0).
  apply Set_add_NoDup, distinct_members. exact Hw.
Qed.

Lemma distinct_left (rs : transport) (ws : conn) (w : world) :
  distinct w -> distinct (after (handleLeave rs ws w)).
Proof.
  intro Hw. rewrite handleLeave_eq.
  destruct (Map_get Nat.eqb ws (clients w)) as [info|]; [|exact Hw].
  cbv zeta.
  destruct (Map_get String.eqb (Info.roomId info) (rooms w)) as [s|] eqn:Es;
    [|apply distinct_removeClient; exact Hw].
  assert (Hs : NoDup (Set_delete ws s)).
  { apply Set_delete_NoDup. destruct Hw as [_ [_ H]]. exact (H _ _ Es). }
  destruct (Set_delete ws s) as [|c rest].
  - apply distinct_removeClient, distinct_dropRoom, distinct_setRoom; assumption.
  - destruct (roster (clients w) (c :: rest)); cbn [after].
    + apply distinct_removeClient, distinct_setRoom; assumption.
    + apply distinct_setRoom; assumption.
Qed.

Lemma distinct_step (k : tick) (w : world) :
  distinct w -> distinct (after (step k w)).
Proof.
  intro Hw. destruct k as [rs uid [ws [d|]|ws|ws]]; unfold step;
    cbn [tick_event tick_ready tick_random].
  - unfold onMessage. rewrite try_catch_eq. unfold caught. cbn [after].
    destruct (String.eqb (Data.type d) "join").
    { rewrite handleJoin_after. apply distinct_joined. exact Hw. }
    destruct (String.eqb (Data.type d) "signal").
    { rewrite handleSignal_after. exact Hw. }
    destruct (String.eqb (Data.type d) "leave").
    { apply distinct_left. exact Hw. }
    exact Hw.
  - exact Hw.
  - apply distinct_left. exact Hw.
  - exact Hw.
Qed.

Lemma inbox_deliver_at_most_once (rs : transport) (ex : option conn)
    (message : serverMsg) (l : list conn) (c : conn) :
  NoDup l -> List.length (inbox c (deliver rs ex message l)) <= 1.
Proof.
  intro Hnd. destruct (in_dec Nat.eq_dec c l) as [Hin|Hout].
  - destruct (recipient rs ex c) eqn:Hr.
    + rewrite (inbox_deliver_once rs ex message l c Hnd Hin Hr). simpl. lia.
    + assert (E : inbox c (deliver rs ex message l) = []).
      { clear Hnd Hin. induction l as [|x l IH]; [reflexivity|].
        unfold deliver, inbox in *. simpl.
        destruct (recipient rs ex x) eqn:Hx; simpl; [|exact IH].
        destruct (Nat.eqb_spec x c) as [->|Hne]; [congruence | exact IH]. }
      rewrite E. simpl. lia.
  - rewrite (inbox_deliver_absent rs ex message l c Hout). simpl. lia.
Qed.

(** X8: in every state the relay reaches from the empty one, whatever the
    events, a connection has at most one registry entry, a roomId at most
    one directory entry, and no member set lists a connection twice; so a
    broadcast never writes the same message to a connection twice. *)
Theorem reachable_states_have_no_duplicates :
  forall (t : list tick),
    distinct (after (run t init)) /\
    (forall (rs : transport) (r : string) (message : serverMsg)
            (excludeWs : option conn) (c : conn),
        List.length
          (inbox c (sent (broadcastToRoom rs r message excludeWs (after (run t init)))))
        <= 1).
Proof.
  intro t.
  assert (H : forall w, distinct w -> distinct (after (run t w))).
  { induction t as [|k t IH]; intros w Hw; [exact Hw|].
    rewrite run_cons_after. pose proof (distinct_step k w Hw) as Hk.
    destruct (value (step k w)); [apply IH|]; exact Hk. }
  assert (Hd : distinct (after (run t init))).
  { apply H. split; [constructor|]. split; [constructor|].
    intros r s E. discriminate. }
  split; [exact Hd|].
  intros rs r message excludeWs c. rewrite broadcastToRoom_eq. cbn [sent].
  apply inbox_deliver_at_most_once, distinct_members. exact Hd.
Qed.

(** ** Runs in which nobody joins twice *)

(** X9: as long as no connection sends [join] while it has a session, every run
    from the empty state keeps registry and directory consistent (every
    member of a room has a session naming that room, every session's
    connection is in the member set of the room it names, no room is empty)
    and no handler lets an exception escape. *)
Theorem conforming_runs_keep_the_invariant :
  forall (t : list tick),
    conforming_run t init ->
    wf (after (run t init)) /\ value (run t init) = inl tt.
Proof. intros t H. exact (wf_run t init wf_init H). Qed.

Lemma conforming_runs_keep_the_invariant_witness :
  wf (after (run [says allOpen "u1" alice (join "alice" "lobby");
                  says allOpen "u2" bob (join "bob" "lobby");
                  Tick allOpen "" (Close alice)] init)) /\
  value (run [says allOpen "u1" alice (join "alice" "lobby");
              says allOpen "u2" bob (join "bob" "lobby");
              Tick allOpen "" (Close alice)] init) = inl tt.
Proof.
  apply conforming_runs_keep_the_invariant.
  split; [|split; [|split; [|exact I]]].
  - intros ws d H _. inversion H. reflexivity.
  - intros ws d H _. inversion H. reflexivity.
  - intros ws d H _. discriminate H.
Defined.


(** ** Join, then leave *)






(** ** A sequence of joins into one room *)

Lemma joinerEntry_absent (r : string) (js : list joiner) (c : conn) :
  ~ In c (map joiner_conn js) -> Map_get Nat.eqb c (map (joinerEntry r) js) = None.
Proof.
  induction js as [|j js IH]; simpl; intro H; [reflexivity|].
  destruct (Nat.eqb_spec c (joiner_conn j)) as [E|_].
  - exfalso. apply H. left. symmetry. exact E.
  - apply IH. intro Hin. apply H. now right.
Qed.

Lemma joinerEntry_present (r : string) (js : list joiner) (j : joiner) :
  NoDup (map joiner_conn js) -> In j js ->
  Map_get Nat.eqb (joiner_conn j) (map (joinerEntry r) js)
  = Some (Info.mk (joiner_userId j) (joiner_username j) r).
Proof.
  induction js as [|j0 js IH]; simpl; intros Hnd Hin; [destruct Hin|].
  inversion Hnd as [|? ? Hj0 Hnd']. subst.
  destruct Hin as [->|Hin].
  - rewrite Nat.eqb_refl. reflexivity.
  - destruct (Nat.eqb_spec (joiner_conn j) (joiner_conn j0)) as [E|_].
    + exfalso. apply Hj0. rewrite <- E. apply in_map. exact Hin.
    + exact (IH Hnd' Hin).
Qed.

Lemma roster_joiners (r : string) (js l : list joiner) :
  NoDup (map joiner_conn js) -> incl l js ->
  roster (map (joinerEntry r) js) (map joiner_conn l) = Some (map joinerUser l).
Proof.
  intros Hnd. induction l as [|j l IH]; intro Hl; simpl; [reflexivity|].
  rewrite (joinerEntry_present r js j Hnd) by (apply Hl; now left).
  rewrite IH by (intros x Hx; apply Hl; now right). reflexivity.
Qed.

Lemma members_roomOf (r : string) (js : list joiner) :
  members (roomOf r js) r = map joiner_conn js.
Proof.
  unfold members, roomOf. destruct js as [|j js]; [reflexivity|].
  cbn [rooms Map_get]. rewrite String.eqb_refl. reflexivity.
Qed.

Lemma filter_other_absent (ws : conn) (l : list conn) :
  ~ In ws l -> filter (fun c => negb (Nat.eqb c ws)) l = l.
Proof.
  intro H. induction l as [|x l IH]; simpl; [reflexivity|].
  destruct (Nat.eqb_spec x ws) as [->|_]; simpl.
  - exfalso. apply H. now left.
  - rewrite IH; [reflexivity|]. intro Hin. apply H. now right.
Qed.

Lemma join_next (rs : transport) (r : string) (pre : list joiner) (j : joiner) :
  NoDup (map joiner_conn (pre ++ [j])) ->
  step (joinTick rs r j) (roomOf r pre)
  = Result (inl tt) (roomOf r (pre ++ [j]))
      ((joiner_conn j, RoomJoined r (joiner_userId j) (map joinerUser pre))
       :: deliver rs None (UserJoined (joiner_userId j) (joiner_username j))
            (map joiner_conn pre)
       ++ deliver rs None (UserList (map joinerUser (pre ++ [j])))
            (map joiner_conn (pre ++ [j]))).
Proof.
  intro Hnd. set (ws := joiner_conn j).
  assert (Hnot : ~ In ws (map joiner_conn pre)).
  { rewrite map_app in Hnd. apply NoDup_remove_2 in Hnd.
    rewrite app_nil_r in Hnd. exact Hnd. }
  assert (Hadd : Set_add ws (map joiner_conn pre) = map joiner_conn (pre ++ [j])).
  { unfold Set_add. destruct (Set_has ws (map joiner_conn pre)) eqn:E.
    - apply Set_has_In in E. contradiction.
    - rewrite map_app. reflexivity. }
  assert (Hw : joined (joiner_userId j) ws (join (joiner_username j) r) (roomOf r pre)
               = roomOf r (pre ++ [j])).
  { unfold joined. cbn [join Data.roomId Data.username].
    rewrite members_roomOf, Hadd. unfold roomOf at 1 2. cbn [clients rooms].
    rewrite (Map_set_absent Nat.eqb) by (apply joinerEntry_absent; exact Hnot).
    unfold roomOf. f_equal.
    - rewrite map_app. reflexivity.
    - destruct pre as [|p pre']; [reflexivity|].
      cbn [Map_set app]. rewrite String.eqb_refl. reflexivity. }
  unfold joinTick. rewrite step_says.
  rewrite (onMessage_join rs (joiner_userId j) (joiner_conn j)
             (join (joiner_username j) r) (roomOf r pre) eq_refl).
  rewrite handleJoin_eq. cbv zeta. cbn [join Data.roomId Data.username].
  fold ws. change (Data.mk "join" (joiner_username j) r "" "")
    with (join (joiner_username j) r).
  rewrite Hw, members_roomOf, Hadd.
  rewrite <- Hadd at 1. rewrite filter_other_Set_add, (filter_other_absent ws _ Hnot).
  unfold roomOf at 1 2. cbn [clients].
  rewrite (roster_joiners r (pre ++ [j]) pre Hnd) by (apply incl_appl, incl_refl).
  rewrite (roster_joiners r (pre ++ [j]) (pre ++ [j]) Hnd) by apply incl_refl.
  unfold caught. cbn [after sent].
  rewrite deliver_exclude. rewrite <- Hadd at 1.
  rewrite filter_other_Set_add, (filter_other_absent ws _ Hnot). reflexivity.
Qed.

Lemma joins_from (rs : transport) (r : string) (js2 js1 : list joiner) :
  NoDup (map joiner_conn (js1 ++ js2)) ->
  value (run (map (joinTick rs r) js2) (roomOf r js1)) = inl tt /\
  after (run (map (joinTick rs r) js2) (roomOf r js1)) = roomOf r (js1 ++ js2).
Proof.
  revert js1. induction js2 as [|j js2 IH]; intros js1 Hnd.
  - rewrite app_nil_r. split; reflexivity.
  - assert (Hpre : NoDup (map joiner_conn (js1 ++ [j]))).
    { rewrite map_app in Hnd |- *. simpl in Hnd |- *.
      apply NoDup_remove in Hnd. destruct Hnd as [H1 H2].
      apply NoDup_app; [exact (NoDup_app_remove_r _ _ H1) |
                        constructor; [intros [] | constructor] |].
      intros x Hx [<-|[]]. apply H2. apply in_or_app. now left. }
    assert (Hnd' : NoDup (map joiner_conn ((js1 ++ [j]) ++ js2)))
      by (rewrite <- app_assoc; exact Hnd).
    destruct (IH (js1 ++ [j]) Hnd') as [Hv Ha].
    cbn [map run]. unfold bind. rewrite (join_next rs r js1 j Hpre).
    cbn [value after sent]. rewrite Hv, Ha, <- app_assoc. split; reflexivity.
Qed.

(** X11: when connections that are all different join the same room one after
    the other, starting from the empty relay, each join completes, the
    room's members are the joiners in the order of their joins, and its
    roster lists every joiner exactly once in that order.  The last joiner
    is sent [room-joined] with the roster of those before it, these are then
    sent [user-joined], and the [user-list] that follows, to all of them,
    carries the roster of all the joiners. *)
Theorem joins_build_the_roster :
  forall (rs : transport) (r : string) (js : list joiner),
    NoDup (map joiner_conn js) ->
    let res := run (map (joinTick rs r) js) init in
    value res = inl tt /\
    after res = roomOf r js /\
    members (after res) r = map joiner_conn js /\
    roster (clients (after res)) (members (after res) r) = Some (map joinerUser js) /\
    (forall pre j,
        js = pre ++ [j] ->
        sent (step (joinTick rs r j) (after (run (map (joinTick rs r) pre) init)))
        = (joiner_conn j, RoomJoined r (joiner_userId j) (map joinerUser pre))
          :: deliver rs None (UserJoined (joiner_userId j) (joiner_username j))
               (map joiner_conn pre)
          ++ deliver rs None (UserList (map joinerUser js)) (map joiner_conn js)).
Proof.
  intros rs r js Hnd res.
  destruct (joins_from rs r js [] Hnd) as [Hv Ha].
  change (roomOf r []) with init in Hv, Ha. cbn [app] in Ha. fold res in Hv, Ha.
  split; [exact Hv|]. split; [exact Ha|]. rewrite Ha, members_roomOf.
  split; [reflexivity|]. split.
  - unfold roomOf. cbn [clients]. apply roster_joiners; [exact Hnd | apply incl_refl].
  - intros pre j Hjs. subst js.
    assert (Hpre : NoDup (map joiner_conn ([] ++ pre))).
    { cbn [app]. rewrite map_app in Hnd. exact (NoDup_app_remove_r _ _ Hnd). }
    destruct (joins_from rs r pre [] Hpre) as [_ Hp].
    change (roomOf r []) with init in Hp. cbn [app] in Hp.
    rewrite Hp, (join_next rs r pre j Hnd). reflexivity.
Qed.

Lemma joins_build_the_roster_witness :
  roster
    (clients (after (run (map (joinTick allOpen "lobby")
                        [Joiner alice "u1" "alice"; Joiner bob "u2" "bob"]) init)))
    (members (after (run (map (joinTick allOpen "lobby")
                        [Joiner alice "u1" "alice"; Joiner bob "u2" "bob"]) init))
             "lobby")
  = Some [User "u1" "alice"; User "u2" "bob"].
Proof.
  destruct (joins_build_the_roster allOpen "lobby"
              [Joiner alice "u1" "alice"; Joiner bob "u2" "bob"])
    as [_ [_ [_ [H _]]]].
  - constructor; [intros [H|[]]; discriminate H|].
    constructor; [intros [] | constructor].
  - exact H.
Defined.

(** ** Where sessions come from *)

Lemma step_session_origin (k : tick) (w : world) (c : conn) (i : Info.t) :
  Map_get Nat.eqb c (clients (after (step k w))) = Some i ->
  Map_get Nat.eqb c (clients w) = Some i \/
  exists d, tick_event k = Message c (Some d) /\ Data.type d = "join" /\
            i = Info.mk (tick_random k) (Data.username d) (Data.roomId d).
Proof.
  intro H. destruct (is_join_from c (tick_event k)) eqn:E.
  - right. destruct k as [rs uid [ws [d|]|ws|ws]];
      cbn [tick_event is_join_from] in E; try discriminate E.
    apply andb_true_iff in E. destruct E as [E1 E2].
    apply Nat.eqb_eq in E1. apply String.eqb_eq in E2. subst ws.
    exists d. split; [reflexivity|]. split; [exact E2|].
    destruct (proj1 only_a_join_rebinds_a_session rs uid c d w E2) as [Hs _].
    change (step (Tick rs uid (Message c (Some d))) w)
      with (step (says rs uid c d) w) in H.
    rewrite Hs in H. inversion H. reflexivity.
  - left. exact (proj2 only_a_join_rebinds_a_session k w c i E H).
Qed.

(** X12: a session is only ever written by a [join] from its own connection: if
    a connection has a session after a run, then either it had that very
    session before the run, or the run contains a [join] message from that
    connection whose generated userId, username and roomId are the
    session's. *)
Theorem sessions_come_from_joins :
  forall (t : list tick) (w : world) (c : conn) (i : Info.t),
    Map_get Nat.eqb c (clients (after (run t w))) = Some i ->
    Map_get Nat.eqb c (clients w) = Some i \/
    exists k d, In k t /\ tick_event k = Message c (Some d) /\
                Data.type d = "join" /\
                i = Info.mk (tick_random k) (Data.username d) (Data.roomId d).
Proof.
  induction t as [|k t IH]; intros w c i H; [now left|].
  rewrite run_cons_after in H.
  assert (Hstep : Map_get Nat.eqb c (clients (after (step k w))) = Some i ->
                  Map_get Nat.eqb c (clients w) = Some i \/
                  exists k' d, In k' (k :: t) /\ tick_event k' = Message c (Some d) /\
                    Data.type d = "join" /\
                    i = Info.mk (tick_random k') (Data.username d) (Data.roomId d)).
  { intro Hk. destruct (step_session_origin k w c i Hk) as [Hw|[d Hd]];
      [now left|]. right. exists k, d. split; [now left | exact Hd]. }
  destruct (value (step k w)); [|exact (Hstep H)].
  destruct (IH _ c i H) as [Hk|[k' [d [Hin Hd]]]]; [exact (Hstep Hk)|].
  right. exists k', d. split; [now right | exact Hd].
Qed.

Lemma sessions_come_from_joins_witness :
  Map_get Nat.eqb bob (clients init) = Some (Info.mk "u2" "bob" "lobby") \/
  exists k d,
    In k [says allOpen "u1" alice (join "alice" "lobby");
          says allOpen "u2" bob (join "bob" "lobby")] /\
    tick_event k = Message bob (Some d) /\ Data.type d = "join" /\
    Info.mk "u2" "bob" "lobby"
    = Info.mk (tick_random k) (Data.username d) (Data.roomId d).
Proof.
  apply (sessions_come_from_joins
           [says allOpen "u1" alice (join "alice" "lobby");
            says allOpen "u2" bob (join "bob" "lobby")] init bob).
  vm_compute. reflexivity.
Defined.

(** ** Signals and connections without a session *)

Lemma In_Map_get_nat (c : conn) (i : Info.t) (cl : list (conn * Info.t)) :
  In (c, i) cl -> Map_get Nat.eqb c cl <> None.
Proof.
  induction cl as [|[c' i'] cl IH]; simpl; [intros []|].
  intros [H|H].
  - inversion H. subst. rewrite Nat.eqb_refl. discriminate.
  - destruct (Nat.eqb c c'); [discriminate | exact (IH H)].
Qed.

(** X13: a signal is never relayed to a connection that has no session: one that
    has not joined yet, or whose cleanup has removed it from the registry,
    receives nothing from any [signal] message, whatever targetId the
    message names. *)
Theorem no_signal_without_a_session :
  forall (rs : transport) (uid : string) (ws : conn) (d : Data.t) (w : world)
         (c : conn),
    Data.type d = "signal" ->
    Map_get Nat.eqb c (clients w) = None ->
    inbox c (sent (step (says rs uid ws d) w)) = [].
Proof.
  intros rs uid ws d w c Hd Hnone.
  rewrite step_says, (onMessage_signal _ _ _ _ _ Hd), handleSignal_eq.
  destruct (Map_get Nat.eqb ws (clients w)) as [sender|]; [|reflexivity].
  destruct (findTarget (Data.targetId d) (Info.roomId sender) (clients w))
    as [c'|] eqn:E; [|reflexivity].
  destruct (findTarget_Some _ _ _ _ E) as [i [Hi _]].
  unfold caught, inbox. cbn [sent filter fst].
  destruct (Nat.eqb_spec c' c) as [->|_]; [|reflexivity].
  exfalso. exact (In_Map_get_nat c i (clients w) Hi Hnone).
Qed.

Lemma no_signal_without_a_session_witness :
  inbox alice
    (sent (step (says allOpen "" bob (signal "u1" "offer"))
             (after (step (says allOpen "" alice leave) lobby2))))
  = [].
Proof.
  apply no_signal_without_a_session; reflexivity.
Defined.
